(** * FigSync: the polling file monitor of [FigSync/monitor.py]

    A shallow embedding of [ChangeHandler], [Observer] and [read_handlers],
    and the properties of the change-detection and dispatch engine.

    Python dictionaries keep their keys in insertion order, and the monitor
    iterates over them with effects (log lines, process launches, exceptions
    that stop the iteration), so a dictionary is an association list with
    unique keys whose order is the insertion order.  Exceptions are a
    result type; the clock, the output streams, the launched processes and
    the started threads are an explicit world. *)

From Stdlib Require Import List String Ascii ZArith QArith Bool Lia.
From Stdlib Require Import DecimalString.
Import ListNotations.

Local Open Scope string_scope.
Local Open Scope Z_scope.

(** ** Exceptions and results *)

Inductive exn : Type :=
| KeyError        (* d[k] with k absent, Action[name] with an unknown name *)
| TypeError       (* a call that does not bind every parameter *)
| AttributeError  (* .name on a value that is not an enum member *)
| OSError         (* FileNotFoundError, NotADirectoryError, PermissionError *)
| re_error        (* re.error: the pattern does not compile *)
| ValueError      (* datetime.fromtimestamp: year outside 1..9999 *)
| OverflowError   (* datetime.fromtimestamp: beyond the platform's time_t *)
| UnicodeDecodeError.  (* subprocess.run(text=True): output that is not text *)

Inductive result (A : Type) : Type :=
| Ok (a : A)
| Raise (e : exn).
Arguments Ok {A} a.
Arguments Raise {A} e.

(** ** Dictionaries: insertion-ordered association lists *)

Module Dict.
Section Dict.
Context {V : Type}.

Definition dict : Type := list (string * V).

Definition keys (d : dict) : list string := map fst d.

(* d[k], None standing for KeyError *)
Fixpoint get (k : string) (d : dict) : option V :=
  match d with
  | [] => None
  | (k', v) :: d' => if String.eqb k k' then Some v else get k d'
  end.

(* k in d *)
Definition mem (k : string) (d : dict) : bool :=
  match get k d with Some _ => true | None => false end.

(* d[k] = v: an existing key keeps its place, a new key goes last *)
Fixpoint set (k : string) (v : V) (d : dict) : dict :=
  match d with
  | [] => [(k, v)]
  | (k', v') :: d' =>
      if String.eqb k k' then (k', v) :: d' else (k', v') :: set k v d'
  end.

(* what a dict object satisfies: no key twice *)
Definition wf (d : dict) : Prop := NoDup (keys d).

End Dict.
Arguments dict V : clear implicits.
End Dict.

Abbreviation dict := Dict.dict.

(** A snapshot maps a path to its modification time ([datetime], a total
    order with microsecond resolution: an integer count of microseconds). *)
Definition Snapshot : Type := dict Z.

(** ** [Observer.get_changes] *)

(* for file_path, update_time in old_states.items(): ... *)
Fixpoint get_changes_old (items : list (string * Z)) (new_states : Snapshot)
    (changes : dict string) : result (dict string) :=
  match items with
  | [] => Ok changes
  | (file_path, update_time) :: rest =>
      let changes :=
        if negb (Dict.mem file_path new_states)
        then Dict.set file_path "DELETE" changes else changes in
      (* the second test is not an elif: new_states[file_path] is evaluated
         for every path of old_states *)
      match Dict.get file_path new_states with
      | None => Raise KeyError
      | Some new_time =>
          let changes :=
            if update_time <? new_time
            then Dict.set file_path "UPDATE" changes else changes in
          get_changes_old rest new_states changes
      end
  end.

(* for file_path, update_time in new_states.items(): ... *)
Fixpoint get_changes_new (items : list (string * Z)) (old_states : Snapshot)
    (changes : dict string) : dict string :=
  match items with
  | [] => changes
  | (file_path, _) :: rest =>
      let changes :=
        if negb (Dict.mem file_path old_states)
        then Dict.set file_path "CREATE" changes else changes in
      get_changes_new rest old_states changes
  end.

Definition get_changes (old_states new_states : Snapshot) : result (dict string) :=
  match get_changes_old old_states new_states [] with
  | Raise e => Raise e
  | Ok changes => Ok (get_changes_new new_states old_states changes)
  end.

(** ** The world outside the program, and a monad for stateful code *)

(* what the program does to the outside, in order *)
Inductive Event : Type :=
| EvPrint (msg : string)                (* print(msg) *)
| EvTextbox (textbox : nat) (text : string)  (* log_textbox.insert(tk.END, text) *)
| EvRun (script src_path : string)      (* subprocess.run([script, src_path], ...) *)
| EvSleep (seconds : Z)                 (* time.sleep(seconds) *)
| EvThreadStart (thread : nat).         (* threading.Thread(...).start() *)

Record World : Type := mkWorld {
  reads : nat;          (* how many times time.time() has been read *)
  trace : list Event
}.

(* a computation on a state S that returns an A or raises; what it did to
   the state before raising stays done *)
Definition M (S A : Type) : Type := S -> result A * S.

Definition ret {S A} (a : A) : M S A := fun s => (Ok a, s).

Definition raise {S A} (e : exn) : M S A := fun s => (Raise e, s).

Definition bind {S A B} (m : M S A) (k : A -> M S B) : M S B :=
  fun s => match m s with
           | (Ok a, s') => k a s'
           | (Raise e, s') => (Raise e, s')
           end.

Definition get_state {S} : M S S := fun s => (Ok s, s).

Definition modify {S} (f : S -> S) : M S unit := fun s => (Ok tt, f s).

(* run a computation on a part T of the state S *)
Definition zoom {S T A} (proj : S -> T) (inj : T -> S -> S) (m : M T A) : M S A :=
  fun s => let (r, t) := m (proj s) in (r, inj t s).

(* a world computation next to an object X *)
Definition in_world {X A} (m : M World A) : M (X * World) A :=
  zoom snd (fun w s => (fst s, w)) m.

(* a computation on the object alone *)
Definition on_self {X A} (m : M X A) : M (X * World) A :=
  zoom fst (fun x s => (x, snd s)) m.

Definition of_result {S A} (r : result A) : M S A := fun s => (r, s).

Declare Scope monad_scope.
Delimit Scope monad_scope with monad.
Notation "x <- m ;; k" := (bind m (fun x => k))
  (at level 61, m at next level, right associativity) : monad_scope.
Notation "m ;; k" := (bind m (fun _ => k))
  (at level 61, right associativity) : monad_scope.
Local Open Scope monad_scope.

Definition emit (e : Event) : M World unit :=
  modify (fun w => mkWorld (reads w) (trace w ++ [e])%list).

(** ** The environment: clock, processes, regular expressions *)

Record CompletedProcess : Type := mkCompletedProcess {
  returncode : Z;
  stdout : string;
  stderr : string
}.

(* decimal text of an int, as an f-string prints it *)
Definition str_of_int (z : Z) : string := NilZero.string_of_int (Z.to_int z).

(* elapsed < window on rationals *)
Definition Qltb (x y : Q) : bool := negb (Qle_bool y x).

(* what log(msg, log_textbox) writes, and where *)
Definition log_event (msg : string) (log_textbox : option nat) : Event :=
  match log_textbox with
  | Some textbox => EvTextbox textbox (msg ++ String "010" "")
  | None => EvPrint msg
  end.

(* def log(msg, log_textbox=None) *)
Definition log (msg : string) (log_textbox : option nat) : M World unit :=
  emit (log_event msg log_textbox).

(** ** [ChangeHandler] *)

Inductive Action : Type := CREATE | UPDATE | DELETE.

(* the values that meet in [action in handler.actions]: the strings that
   get_changes stores and the enum members that read_handlers stores *)
Inductive pyval : Type :=
| VStr (s : string)
| VAction (a : Action).

Definition Action_eqb (a b : Action) : bool :=
  match a, b with
  | CREATE, CREATE | UPDATE, UPDATE | DELETE, DELETE => true
  | _, _ => false
  end.

(* ==: a str and an enum member are never equal *)
Definition pyval_eqb (x y : pyval) : bool :=
  match x, y with
  | VStr s, VStr t => String.eqb s t
  | VAction a, VAction b => Action_eqb a b
  | _, _ => false
  end.

(* x in xs *)
Definition py_in (x : pyval) (xs : list pyval) : bool := existsb (pyval_eqb x) xs.

Definition Action_name (a : Action) : string :=
  match a with CREATE => "CREATE" | UPDATE => "UPDATE" | DELETE => "DELETE" end.

(* ChangeHandler.Action[action_name] *)
Definition Action_of_name (action_name : string) : result Action :=
  if String.eqb action_name "CREATE" then Ok CREATE
  else if String.eqb action_name "UPDATE" then Ok UPDATE
  else if String.eqb action_name "DELETE" then Ok DELETE
  else Raise KeyError.

(* action.name *)
Definition attr_name (action : pyval) : result string :=
  match action with
  | VAction a => Ok (Action_name a)
  | VStr _ => Raise AttributeError
  end.

Record ChangeHandler : Type := mkChangeHandler {
  actions : list pyval;
  log_textbox : option nat;
  last_file : option string;
  last_update : Q;
  script : string
}.

Definition set_last_file (f : option string) (h : ChangeHandler) : ChangeHandler :=
  mkChangeHandler (actions h) (log_textbox h) f (last_update h) (script h).

Definition set_last_update (t : Q) (h : ChangeHandler) : ChangeHandler :=
  mkChangeHandler (actions h) (log_textbox h) (last_file h) t (script h).

(* src_path == self.last_file *)
Definition is_last_file (src_path : string) (h : ChangeHandler) : bool :=
  match last_file h with
  | Some f => String.eqb src_path f
  | None => false
  end.

Section Environment.

(* time.time(): the n-th reading of the clock, in seconds.  The readings
   are rationals; the code subtracts floats, which is exact, and compares
   with 1 as here, for readings of 1 and more (seconds since 1970). *)
Variable time_time : nat -> Q.
(* subprocess.run([script, src_path], capture_output=True, text=True): the
   completed process, or the exception of the call: OSError when the
   script cannot be launched, UnicodeDecodeError when the command has run
   and its output is not text *)
Variable subprocess_run : string -> string -> result CompletedProcess.

Definition time_now : M World Q :=
  fun w => (Ok (time_time (reads w)), mkWorld (S (reads w)) (trace w)).

(* ChangeHandler.__init__ *)
Definition ChangeHandler_init (actions : list pyval) (script : string)
    (log_textbox : option nat) : M World ChangeHandler :=
  now <- time_now ;;
  ret (mkChangeHandler actions log_textbox None now script).

(* ChangeHandler.process_update(self, src_path, action) *)
Definition process_update (src_path : string) (action : pyval)
    : M (ChangeHandler * World) unit :=
  name <- of_result (attr_name action) ;;
  self <- get_state ;;
  in_world (log ("File " ++ name ++ ": " ++ src_path) (log_textbox (fst self))) ;;
  repeated <-
    (if is_last_file src_path (fst self)  (* prevent repeated events *)
     then now <- in_world time_now ;;
          ret (Qltb (now - last_update (fst self)) 1)
     else ret false) ;;
  if repeated then ret tt
  else
    on_self (modify (set_last_file (Some src_path))) ;;
    now <- in_world time_now ;;
    on_self (modify (set_last_update now)) ;;
    self <- get_state ;;
    in_world (emit (EvRun (script (fst self)) src_path)) ;;
    match subprocess_run (script (fst self)) src_path with
    | Raise e => raise e
    | Ok result =>
        in_world (log ("finished with code " ++ str_of_int (returncode result)) None) ;;
        (if String.eqb (stdout result) "" then ret tt
         else in_world (log ("output: " ++ String "010" (stdout result)) None)) ;;
        (if String.eqb (stderr result) "" then ret tt
         else in_world (log ("error: " ++ String "010" (stderr result)) None))
    end.

(* a call handler.process_update(src_path, *rest): the method has the two
   parameters src_path and action, and any other number of arguments is a
   TypeError raised before its body runs *)
Definition process_update_call (src_path : string) (rest : list pyval)
    : M (ChangeHandler * World) unit :=
  match rest with
  | [action] => process_update src_path action
  | _ => raise TypeError
  end.

End Environment.

(** ** The directory tree that a walk sees *)

(* the modification time of an entry as the walk gets it, through
   datetime.datetime.fromtimestamp(os.path.getmtime(file_path)): a datetime,
   or the exception of the conversion (ValueError for a year outside
   1..9999, OverflowError or OSError where the platform's localtime gives
   up) *)
Inductive stamp : Type :=
| Time (t : Z)
| NoTime (e : exn).

Coercion Time : Z >-> stamp.

#[local] Unset Elimination Schemes.
Inductive node : Type :=
| File (mtime : stamp)
| Dir (mtime : stamp) (entries : list (string * node))  (* os.listdir order *)
| Locked (mtime : stamp)   (* a directory that cannot be listed *)
| Dangling.            (* a listed name whose stat fails: a broken link, or
                          an entry removed while the walk is under way *)

#[local] Set Elimination Schemes.

(* os.path.isdir *)
Definition isdir (n : node) : bool :=
  match n with
  | Dir _ _ | Locked _ => true
  | File _ | Dangling => false
  end.

(* datetime.datetime.fromtimestamp(os.path.getmtime(file_path)) *)
Definition getmtime (n : node) : result Z :=
  match n with
  | File (Time t) | Dir (Time t) _ | Locked (Time t) => Ok t
  | File (NoTime e) | Dir (NoTime e) _ | Locked (NoTime e) => Raise e
  | Dangling => Raise OSError
  end.

(** ** [Observer] *)

Record Observer : Type := mkObserver {
  path : string;
  recursive : bool;
  last_updates : Snapshot;
  running : bool;
  thread : option nat;
  handlers : dict ChangeHandler;
  obs_log_textbox : option nat
}.

Definition set_last_updates (d : Snapshot) (o : Observer) : Observer :=
  mkObserver (path o) (recursive o) d (running o) (thread o) (handlers o)
             (obs_log_textbox o).

Definition set_running (b : bool) (o : Observer) : Observer :=
  mkObserver (path o) (recursive o) (last_updates o) b (thread o) (handlers o)
             (obs_log_textbox o).

Definition set_thread (t : option nat) (o : Observer) : Observer :=
  mkObserver (path o) (recursive o) (last_updates o) (running o) t (handlers o)
             (obs_log_textbox o).

Definition set_handlers (hs : dict ChangeHandler) (o : Observer) : Observer :=
  mkObserver (path o) (recursive o) (last_updates o) (running o) (thread o) hs
             (obs_log_textbox o).

(* Observer.add_handler *)
Definition add_handler (pattern : string) (handler : ChangeHandler)
    (self : Observer) : Observer :=
  set_handlers (Dict.set pattern handler (handlers self)) self.

(* the loop of query_last_updates over os.listdir(path), walk being the
   recursive call; last_updates is the one dict object that every level of
   the walk writes to *)
Definition query_entries (walk : node -> Snapshot -> string -> result Snapshot)
    (recursive : bool) (prefix : string)
    : list (string * node) -> Snapshot -> result Snapshot :=
  fix listing (entries : list (string * node)) (last_updates : Snapshot)
    : result Snapshot :=
    match entries with
    | [] => Ok last_updates
    | (filename, file_path) :: entries =>
        match
          (if recursive && isdir file_path
           then walk file_path last_updates (prefix ++ filename ++ "/")
           else Ok last_updates)
        with
        | Raise e => Raise e
        | Ok last_updates =>
            match getmtime file_path with
            | Raise e => Raise e
            | Ok modification_time =>
                listing entries
                  (Dict.set (prefix ++ filename) modification_time last_updates)
            end
        end
    end.

(* Observer.query_last_updates(self, path, last_updates, prefix); the
   directory at path is the node *)
Fixpoint query_last_updates (recursive : bool) (path : node)
    (last_updates : Snapshot) (prefix : string) {struct path} : result Snapshot :=
  match path with
  | Dir _ entries =>
      query_entries (query_last_updates recursive) recursive prefix
        entries last_updates
  | File _ | Locked _ | Dangling => Raise OSError   (* os.listdir(path) *)
  end.

(* self.query_last_updates(self.path): last_updates=None, prefix="";
   root is what self.path names, None when nothing is there *)
Definition capture (recursive : bool) (root : option node) : result Snapshot :=
  match root with
  | None => Raise OSError
  | Some n => query_last_updates recursive n [] ""
  end.

(* Observer.__init__ *)
Definition Observer_init (path : string) (recursive : bool)
    (handlers : dict ChangeHandler) (log_textbox : option nat)
    (root : option node) : result Observer :=
  match capture recursive root with
  | Raise e => Raise e
  | Ok last_updates =>
      Ok (mkObserver path recursive last_updates false None handlers log_textbox)
  end.

(* for k, v in d.items(): body k, where body may change the object v that
   sits at this place of d *)
Fixpoint for_items {V : Type} (body : string -> M (V * World) unit)
    (d : dict V) (w : World) : result unit * (dict V * World) :=
  match d with
  | [] => (Ok tt, ([], w))
  | (k, v) :: d' =>
      match body k (v, w) with
      | (Raise e, (v', w')) => (Raise e, ((k, v') :: d', w'))
      | (Ok _, (v', w')) =>
          let '(r, (d'', w'')) := for_items body d' w' in
          (r, ((k, v') :: d'', w''))
      end
  end.

(* for x in xs: body x *)
Fixpoint for_each {S X : Type} (body : X -> M S unit) (xs : list X) : M S unit :=
  match xs with
  | [] => ret tt
  | x :: xs' => body x ;; for_each body xs'
  end.

Section Monitor.

Variable time_time : nat -> Q.
Variable subprocess_run : string -> string -> result CompletedProcess.
(* re.search(pattern, string) is not None; None when the pattern does not
   compile (re.error) *)
Variable re_search : string -> string -> option bool.

(* the body of the inner loop of process_changes, for one handler *)
Definition dispatch_to (file_path action pattern : string)
    : M (ChangeHandler * World) unit :=
  match re_search pattern file_path with
  | None => raise re_error
  | Some false => ret tt
  | Some true =>
      handler <- get_state ;;
      if py_in (VStr action) (actions (fst handler))
      then process_update_call time_time subprocess_run file_path []
      else ret tt
  end.

(* Observer.process_changes *)
Definition process_changes (changes : dict string) : M (Observer * World) unit :=
  for_each
    (fun change : string * string =>
       let (file_path, action) := change in
       fun s : Observer * World =>
         let '(r, (hs, w)) :=
           for_items (dispatch_to file_path action) (handlers (fst s)) (snd s) in
         (r, (set_handlers hs (fst s), w)))
    changes.

(* one turn of the loop of __process__, on what self.path names then *)
Definition poll (root : option node) : M (Observer * World) unit :=
  in_world (emit (EvSleep 1)) ;;
  self <- get_state ;;
  new_updates <- of_result (capture (recursive (fst self)) root) ;;
  changes <- of_result (get_changes (last_updates (fst self)) new_updates) ;;
  match changes with
  | [] => ret tt
  | _ :: _ =>
      in_world (emit (EvPrint "changes detected")) ;;
      on_self (modify (set_last_updates new_updates)) ;;
      process_changes changes
  end.

(* what one turn of the loop meets: whether another thread has cleared
   self.running since the last test, and the directory tree *)
Record Turn : Type := mkTurn {
  stop_requested : bool;
  root : option node
}.

Inductive LoopEnd : Type :=
| Exited      (* self.running was found False *)
| Horizon.    (* still looping after the last turn considered *)

(* Observer.__process__ *)
Fixpoint __process__ (turns : list Turn) : M (Observer * World) LoopEnd :=
  match turns with
  | [] => ret Horizon
  | turn :: turns =>
      (if stop_requested turn then on_self (modify (set_running false)) else ret tt) ;;
      self <- get_state ;;
      if running (fst self)
      then poll (root turn) ;; __process__ turns
      else ret Exited
  end.

(* the threads started so far *)
Definition started_threads (w : World) : list nat :=
  flat_map (fun e => match e with EvThreadStart t => [t] | _ => [] end) (trace w).

(* Observer.start *)
Definition start : M (Observer * World) unit :=
  on_self (modify (set_running true)) ;;
  s <- get_state ;;
  let t := List.length (started_threads (snd s)) in   (* a new Thread object *)
  on_self (modify (set_thread (Some t))) ;;
  in_world (emit (EvThreadStart t)).

(** ** [read_handlers] *)

Record handler_data : Type := mkHandlerData {
  hd_pattern : string;
  hd_actions : list string;
  hd_script : string
}.

(* for action_name in handler_data["actions"]: actions.append(Action[action_name]) *)
Fixpoint read_actions (names : list string) (actions : list pyval)
    : result (list pyval) :=
  match names with
  | [] => Ok actions
  | action_name :: names =>
      match Action_of_name action_name with
      | Raise e => Raise e
      | Ok a => read_actions names (actions ++ [VAction a])%list
      end
  end.

(* for handler_data in configuration["handlers"]: ... *)
Fixpoint read_handlers_loop (configuration : list handler_data)
    (log_textbox : option nat) (handlers : dict ChangeHandler)
    : M World (dict ChangeHandler) :=
  match configuration with
  | [] => ret handlers
  | hd :: configuration =>
      actions <- of_result (read_actions (hd_actions hd) []) ;;
      handler <- ChangeHandler_init time_time actions (hd_script hd) log_textbox ;;
      read_handlers_loop configuration log_textbox
        (Dict.set (hd_pattern hd) handler handlers)
  end.

(* read_handlers(file_path, log_textbox); configuration is the list under
   "handlers" of the JSON file, None when file_path is not a file *)
Definition read_handlers (configuration : option (list handler_data))
    (log_textbox : option nat) : M World (dict ChangeHandler) :=
  match configuration with
  | None => raise OSError
  | Some configuration => read_handlers_loop configuration log_textbox []
  end.

End Monitor.

(** ** What the walk is meant to visit *)

(* [reaches recursive n p d]: d is the entry at the relative path p under
   the directory n, path segments joined by "/"; below the first level
   only when the walk is recursive *)
Inductive reaches (recursive : bool) : node -> string -> node -> Prop :=
| reaches_child mtime entries filename d :
    In (filename, d) entries ->
    reaches recursive (Dir mtime entries) filename d
| reaches_below mtime entries filename sub p d :
    recursive = true ->
    In (filename, sub) entries ->
    reaches recursive sub p d ->
    reaches recursive (Dir mtime entries) (filename ++ "/" ++ p) d.

(* the modification time of the entry can be had *)
Definition dated (n : node) : bool :=
  match getmtime n with Ok _ => true | Raise _ => false end.

(* a directory that the walk gets through: every directory it enters can
   be listed and every entry it visits has a modification time *)
Fixpoint readable (recursive : bool) (n : node) : bool :=
  match n with
  | Dir _ entries =>
      forallb
        (fun e =>
           let '(_, d) := e in
           (if recursive && isdir d then readable recursive d else true)
           && dated d)
        entries
  | File _ | Locked _ | Dangling => false
  end.

(* the first exception that a non-recursive walk meets in a listing *)
Fixpoint first_error (entries : list (string * node)) : option exn :=
  match entries with
  | [] => None
  | (_, d) :: entries =>
      match getmtime d with
      | Raise e => Some e
      | Ok _ => first_error entries
      end
  end.

(* the keys that the snapshot is said to have: the files under the root,
   directories being traversed (when recursive) but not listed *)
Fixpoint spec_file_keys (recursive : bool) (n : node) (prefix : string)
    : list string :=
  match n with
  | Dir _ entries =>
      flat_map
        (fun e =>
           let '(filename, d) := e in
           match d with
           | File _ => [prefix ++ filename]
           | Dir _ _ =>
               if recursive
               then spec_file_keys recursive d (prefix ++ filename ++ "/")
               else []
           | Locked _ | Dangling => []
           end)
        entries
  | File _ | Locked _ | Dangling => []
  end.

(* a watched directory with a subdirectory d that holds the file f *)
Definition tree_d : node := Dir 9 [("d", Dir 7 [("f", File 3)]); ("g", File 4)].

(** ** A fragment of [re.search]

    Patterns made of literal characters, escaped punctuation, [.], a
    leading [^] and a trailing [$]; enough for the patterns of the
    examples.  Any other pattern is outside the fragment and is answered
    None. *)

Module ReFragment.

Inductive token : Type :=
| Lit (c : ascii)
| AnyChar.

Definition is_meta (c : ascii) : bool :=
  existsb (Ascii.eqb c) (list_ascii_of_string "*+?{}[]()|^$\.").

Definition is_alnum (c : ascii) : bool :=
  let n := nat_of_ascii c in
  ((48 <=? n) && (n <=? 57) || (65 <=? n) && (n <=? 90)
   || (97 <=? n) && (n <=? 122))%nat.

(* the tokens of a pattern and whether it ends with $ *)
Fixpoint tokens (p : string) : option (list token * bool) :=
  match p with
  | "" => Some ([], false)
  | String c p' =>
      if Ascii.eqb c "$" then
        match p' with "" => Some ([], true) | _ => None end
      else if Ascii.eqb c "\" then
        match p' with
        | "" => None
        | String e p'' =>
            if is_alnum e then None
            else match tokens p'' with
                 | Some (ts, dollar) => Some (Lit e :: ts, dollar)
                 | None => None
                 end
        end
      else if Ascii.eqb c "." then
        match tokens p' with
        | Some (ts, dollar) => Some (AnyChar :: ts, dollar)
        | None => None
        end
      else if is_meta c then None
      else match tokens p' with
           | Some (ts, dollar) => Some (Lit c :: ts, dollar)
           | None => None
           end
  end.

Definition token_matches (t : token) (c : ascii) : bool :=
  match t with
  | Lit l => Ascii.eqb l c
  | AnyChar => negb (Ascii.eqb c "010")
  end.

(* the tokens match a prefix of s; $ holds at the end of the string and
   before a last newline *)
Fixpoint match_here (ts : list token) (dollar : bool) (s : string) : bool :=
  match ts with
  | [] => negb dollar || String.eqb s "" || String.eqb s (String "010" "")
  | t :: ts' =>
      match s with
      | "" => false
      | String c s' => token_matches t c && match_here ts' dollar s'
      end
  end.

Fixpoint match_from (ts : list token) (dollar : bool) (s : string) : bool :=
  match_here ts dollar s
  || match s with
     | "" => false
     | String _ s' => match_from ts dollar s'
     end.

Definition search (pattern s : string) : option bool :=
  match pattern with
  | String c p' =>
      if Ascii.eqb c "^" then
        match tokens p' with
        | Some (ts, dollar) => Some (match_here ts dollar s)
        | None => None
        end
      else
        match tokens pattern with
        | Some (ts, dollar) => Some (match_from ts dollar s)
        | None => None
        end
  | "" => Some true
  end.

End ReFragment.

(** ** Concrete environments for the examples *)

(* a clock that gives the listed readings, then stays at 0 *)
Definition clock_of (readings : list Q) (n : nat) : Q := nth n readings 0%Q.

(* every script runs and exits with code 0 without output *)
Definition run_ok (script src_path : string) : result CompletedProcess :=
  Ok (mkCompletedProcess 0 "" "").

(* no script can be launched *)
Definition run_missing (script src_path : string) : result CompletedProcess :=
  Raise OSError.

Definition world0 : World := mkWorld 0 [].

(** ** The rules of the routing example *)

Definition routing_config : list handler_data :=
  [ mkHandlerData "\.pdf$" ["UPDATE"] "scriptA";
    mkHandlerData "draft" ["CREATE"; "DELETE"] "scriptB" ].

(* the registry that read_handlers builds from routing_config *)
Definition routing_handlers : dict ChangeHandler :=
  [ ("\.pdf$", mkChangeHandler [VAction UPDATE] None None 0 "scriptA");
    ("draft", mkChangeHandler [VAction CREATE; VAction DELETE] None None 0 "scriptB") ].

(* the same rules with the action names kept as strings *)
Definition routing_handlers_str : dict ChangeHandler :=
  [ ("\.pdf$", mkChangeHandler [VStr "UPDATE"] None None 0 "scriptA");
    ("draft", mkChangeHandler [VStr "CREATE"; VStr "DELETE"] None None 0 "scriptB") ].

Definition observer_of (last_updates : Snapshot) (running : bool)
    (handlers : dict ChangeHandler) : Observer :=
  mkObserver "." false last_updates running None handlers None.

(* the first line that process_update logs *)
Definition file_line (h : ChangeHandler) (src_path : string) (a : Action) : Event :=
  log_event ("File " ++ Action_name a ++ ": " ++ src_path) (log_textbox h).

(* a handler that was triggered for a.pdf when the clock read 10 *)
Definition debounce_handler : ChangeHandler :=
  mkChangeHandler [VAction UPDATE] None (Some "a.pdf") 10 "scriptA".

(* a watched directory that holds a.txt, last modified at 3 *)
Definition tree_a3 : option node := Some (Dir 9 [("a.txt", File 3)]).

(* a handler whose script cannot be launched *)
Definition missing_handler : ChangeHandler :=
  mkChangeHandler [VAction CREATE] None None 0 "missing.sh".

(* the world after time.sleep(1) *)
Definition slept (w : World) : World := mkWorld (reads w) (trace w ++ [EvSleep 1]).

(* a sequence of calls observer.add_handler(pattern, handler) *)
Definition add_handlers (registrations : list (string * ChangeHandler))
    (self : Observer) : Observer :=
  fold_left (fun o r => add_handler (fst r) (snd r) o) registrations self.

(** ** What a walk adds to its dict *)

Section Walk.

Variable recursive : bool.

(* the entries reached through a listing *)
Definition through (entries : list (string * node)) (p : string) (d : node) : Prop :=
  In (p, d) entries
  \/ (recursive = true /\
      exists filename sub q,
        In (filename, sub) entries /\ reaches recursive sub q d
        /\ p = filename ++ "/" ++ q).

(* what a walk that returns has added to the dict it was given *)
Definition walk_adds (n : node) : Prop :=
  forall last_updates prefix last_updates',
    query_last_updates recursive n last_updates prefix = Ok last_updates' ->
    (forall k, In k (Dict.keys last_updates') <->
                  In k (Dict.keys last_updates)
                  \/ exists p d, k = prefix ++ p /\ reaches recursive n p d)
    /\ (forall k t, Dict.get k last_updates' = Some t ->
                    Dict.get k last_updates = Some t
                    \/ exists p d, k = prefix ++ p /\ reaches recursive n p d
                                   /\ getmtime d = Ok t).

End Walk.

(** ** The change set without deletions, in order *)

(* the shared paths whose timestamp grew, in the order of the old snapshot *)
Definition updated (old_states new_states : Snapshot) : dict string :=
  flat_map
    (fun item : string * Z =>
       let (file_path, update_time) := item in
       match Dict.get file_path new_states with
       | Some new_time =>
           if update_time <? new_time then [(file_path, "UPDATE")] else []
       | None => []
       end)
    old_states.

(* the paths that the old snapshot does not have, in the order of the new *)
Definition created (old_states new_states : Snapshot) : dict string :=
  flat_map
    (fun item : string * Z =>
       if Dict.mem (fst item) old_states then [] else [(fst item, "CREATE")])
    new_states.

(* the names of the members of ChangeHandler.Action *)
Definition Action_names : list string := ["CREATE"; "UPDATE"; "DELETE"].

(* the world after n turns that only sleep *)
Fixpoint slept_n (n : nat) (w : World) : World :=
  match n with
  | O => w
  | S n => slept_n n (slept w)
  end.

(* the lines that process_update prints once the command has exited *)
Definition report (result : CompletedProcess) : list Event :=
  (EvPrint ("finished with code " ++ str_of_int (returncode result))
   :: (if String.eqb (stdout result) "" then []
       else [EvPrint ("output: " ++ String "010" (stdout result))])
   ++ (if String.eqb (stderr result) "" then []
       else [EvPrint ("error: " ++ String "010" (stderr result))]))%list.

(** ** The main block, once the arguments are parsed *)

Section Main.

Variable time_time : nat -> Q.

(* handlers = read_handlers(args.configuration_file)
   observer = Observer(path=args.path, recursive=args.recursive, handlers=handlers)
   observer.start()
   The except clause of the block catches argparse.ArgumentError only, so
   the errors of read_handlers and of Observer go through it. *)
Definition main_start (configuration : option (list handler_data))
    (path : string) (recursive : bool) (root : option node) : M World Observer :=
  handlers <- read_handlers time_time configuration None ;;
  observer <- of_result (Observer_init path recursive handlers None root) ;;
  (fun w =>
     let '(r, (observer, w)) := start (observer, w) in
     (match r with Ok _ => Ok observer | Raise e => Raise e end, w)).

End Main.

(* a list of actions that holds enum members only, as read_handlers
   builds it *)
Definition enum_only (actions : list pyval) : Prop :=
  forall v, In v actions -> exists a, v = VAction a.

(* the entry that a non-recursive walk writes for a listed name *)
Definition listed (entry : string * node) : string * Z :=
  (fst entry, match getmtime (snd entry) with Ok t => t | Raise _ => 0 end).

(* the handler once a trigger of src_path has been let through at time now *)
Definition triggered (src_path : string) (now : Q) (h : ChangeHandler)
    : ChangeHandler :=
  set_last_update now (set_last_file (Some src_path) h).

(* how process_update ends once subprocess.run has been called: with the
   exception of the call, or normally after the report *)
Definition run_result (outcome : result CompletedProcess) : result unit :=
  match outcome with
  | Ok _ => Ok tt
  | Raise e => Raise e
  end.

Definition run_report (outcome : result CompletedProcess) : list Event :=
  match outcome with
  | Ok result => report result
  | Raise _ => []
  end.

(* the rule is one that dispatch calls for the change: its pattern is found
   in the path and its actions hold the action *)
Definition rule_fires (re_search : string -> string -> option bool)
    (change : string * string) (rule : string * ChangeHandler) : bool :=
  match re_search (fst rule) (fst change) with
  | Some true => py_in (VStr (snd change)) (actions (snd rule))
  | Some false | None => false
  end.

(* two rules that both fire for the creation of a .pdf whose name holds
   draft; the script of the first cannot be launched *)
Definition two_rules : dict ChangeHandler :=
  [ ("draft", mkChangeHandler [VStr "CREATE"] None None 0 "missing.sh");
    ("\.pdf$", mkChangeHandler [VStr "CREATE"] None None 0 "scriptB") ].

(* missing.sh cannot be launched, any other script runs *)
Definition run_unless_missing (script src_path : string)
    : result CompletedProcess :=
  if String.eqb script "missing.sh" then Raise OSError
  else Ok (mkCompletedProcess 0 "" "").

(* a watched directory in which draft.pdf has appeared *)
Definition tree_draft : option node := Some (Dir 9 [("draft.pdf", File 3)]).

(** * Properties *)

(** ** Dictionaries *)

Section DictFacts.
Context {V : Type}.
Implicit Types (d : dict V) (k : string) (v : V).

Lemma dict_get_set_same k v d : Dict.get k (Dict.set k v d) = Some v.
Proof.
  induction d as [|[k' v'] d IH]; simpl.
  - now rewrite String.eqb_refl.
  - destruct (String.eqb k k') eqn:E; simpl; now rewrite E.
Qed.

Lemma dict_get_set_other k k' v d :
  k <> k' -> Dict.get k' (Dict.set k v d) = Dict.get k' d.
Proof.
  intros Hne. induction d as [|[k0 v0] d IH]; simpl.
  - destruct (String.eqb_spec k' k); congruence.
  - destruct (String.eqb_spec k k0) as [->|]; simpl.
    + destruct (String.eqb_spec k' k0); congruence.
    + now rewrite IH.
Qed.

Lemma dict_set_not_nil k v d : Dict.set k v d <> [].
Proof.
  destruct d as [|[k' v'] d]; simpl; [|destruct (String.eqb k k')]; discriminate.
Qed.

Lemma dict_mem_true_iff k d : Dict.mem k d = true <-> In k (Dict.keys d).
Proof.
  unfold Dict.mem. induction d as [|[k' v'] d IH]; simpl.
  - split; [discriminate | tauto].
  - destruct (String.eqb_spec k k') as [->|Hne].
    + split; auto.
    + rewrite IH. split; [tauto | intros [H|H]; congruence].
Qed.

Lemma dict_mem_false_iff k d : Dict.mem k d = false <-> ~ In k (Dict.keys d).
Proof.
  rewrite <- dict_mem_true_iff. destruct (Dict.mem k d); split; congruence.
Qed.

Lemma dict_get_none_iff k d : Dict.get k d = None <-> ~ In k (Dict.keys d).
Proof.
  rewrite <- dict_mem_false_iff. unfold Dict.mem.
  destruct (Dict.get k d); split; congruence.
Qed.

Lemma dict_get_In k v d : Dict.get k d = Some v -> In (k, v) d.
Proof.
  induction d as [|[k' v'] d IH]; simpl; [discriminate|].
  destruct (String.eqb_spec k k') as [->|]; [intros [= ->]; auto | auto].
Qed.

Lemma dict_In_keys k v d : In (k, v) d -> In k (Dict.keys d).
Proof. intros H. change k with (fst (k, v)). now apply in_map. Qed.

Lemma dict_In_get k v d : Dict.wf d -> In (k, v) d -> Dict.get k d = Some v.
Proof.
  unfold Dict.wf. induction d as [|[k' v'] d IH]; simpl; [tauto|].
  intros Hnd [[= -> ->]|Hin].
  - now rewrite String.eqb_refl.
  - inversion Hnd; subst.
    destruct (String.eqb_spec k k') as [->|]; auto.
    exfalso. eauto using dict_In_keys.
Qed.

Lemma dict_keys_set k v d :
  Dict.keys (Dict.set k v d)
  = if Dict.mem k d then Dict.keys d else (Dict.keys d ++ [k])%list.
Proof.
  unfold Dict.mem. induction d as [|[k' v'] d IH]; simpl; auto.
  destruct (String.eqb_spec k k') as [->|]; simpl; auto.
  rewrite IH. now destruct (Dict.get k d).
Qed.

Lemma dict_In_keys_set k k' v d :
  In k' (Dict.keys (Dict.set k v d)) <-> k' = k \/ In k' (Dict.keys d).
Proof.
  rewrite dict_keys_set. destruct (Dict.mem k d) eqn:E.
  - apply dict_mem_true_iff in E. split; auto. intros [->|]; auto.
  - rewrite in_app_iff. simpl. intuition congruence.
Qed.

Lemma dict_wf_set k v d : Dict.wf d -> Dict.wf (Dict.set k v d).
Proof.
  unfold Dict.wf. rewrite dict_keys_set. destruct (Dict.mem k d) eqn:E; auto.
  apply dict_mem_false_iff in E. intros Hnd.
  apply NoDup_rev in Hnd. rewrite <- (rev_involutive (Dict.keys d ++ [k])).
  apply NoDup_rev. rewrite rev_app_distr. simpl. constructor; auto.
  now rewrite <- in_rev.
Qed.

(* a key names at most one item *)
Lemma dict_wf_one_item k d :
  Dict.wf d ->
  (List.length (filter (fun item => String.eqb (fst item) k) d) <= 1)%nat.
Proof.
  unfold Dict.wf. induction d as [|[k' v'] d IH]; simpl; [lia|].
  intros Hnd. inversion Hnd as [|? ? Hnotin Hnd']; subst.
  destruct (String.eqb_spec k' k) as [->|]; simpl; auto.
  assert (Hnone : filter (fun item : string * V => String.eqb (fst item) k) d = []).
  { clear -Hnotin. induction d as [|[k0 v0] d IH]; simpl in *; auto.
    destruct (String.eqb_spec k0 k) as [->|]; [tauto|].
    apply IH. tauto. }
  rewrite Hnone. simpl. lia.
Qed.

End DictFacts.

(** ** The differ *)

Lemma get_changes_old_raises items new_states changes :
  (exists p, In p (Dict.keys items) /\ ~ In p (Dict.keys new_states)) ->
  get_changes_old items new_states changes = Raise KeyError.
Proof.
  revert changes. induction items as [|[k t] items IH]; intros changes [p [Hin Hout]].
  - destruct Hin.
  - simpl. destruct (Dict.get k new_states) as [t'|] eqn:E; auto.
    apply IH. exists p. split; auto.
    destruct Hin as [<-|]; auto. simpl in Hout.
    apply dict_get_none_iff in Hout. congruence.
Qed.

Lemma get_changes_old_ok items new_states changes :
  Dict.wf items ->
  (forall p, In p (Dict.keys items) -> In p (Dict.keys new_states)) ->
  exists changes',
    get_changes_old items new_states changes = Ok changes' /\
    forall p,
      Dict.get p changes' =
      match Dict.get p items, Dict.get p new_states with
      | Some t, Some t' => if t <? t' then Some "UPDATE" else Dict.get p changes
      | _, _ => Dict.get p changes
      end.
Proof.
  revert changes. induction items as [|[k t] items IH]; intros changes Hwf Hsub.
  - exists changes. split; auto.
  - simpl. inversion Hwf as [|? ? Hnotin Hwf']; subst.
    assert (Hk : Dict.mem k new_states = true).
    { apply dict_mem_true_iff, Hsub. now left. }
    rewrite Hk. simpl. unfold Dict.mem in Hk.
    destruct (Dict.get k new_states) as [t'|] eqn:E; [|discriminate].
    destruct (IH (if t <? t' then Dict.set k "UPDATE" changes else changes) Hwf')
      as [changes' [Hrun Hget]].
    { intros p Hp. apply Hsub. now right. }
    exists changes'. split; auto. intros p. rewrite Hget.
    destruct (String.eqb_spec p k) as [->|Hne].
    + apply dict_get_none_iff in Hnotin. fold (Dict.keys items) in Hnotin.
      rewrite Hnotin, E.
      destruct (t <? t'); auto using dict_get_set_same.
    + destruct (Dict.get p items), (Dict.get p new_states); auto;
        destruct (t <? t'); auto; rewrite dict_get_set_other; auto.
Qed.

Lemma get_changes_new_get items old_states changes p :
  Dict.get p (get_changes_new items old_states changes) =
  if Dict.mem p items && negb (Dict.mem p old_states)
  then Some "CREATE" else Dict.get p changes.
Proof.
  revert changes. induction items as [|[k t] items IH]; intros changes; auto.
  assert (Hmem : Dict.mem p ((k, t) :: items) = String.eqb p k || Dict.mem p items).
  { unfold Dict.mem. simpl. now destruct (String.eqb p k). }
  rewrite Hmem. simpl get_changes_new. rewrite IH.
  destruct (String.eqb_spec p k) as [->|Hne]; simpl.
  - destruct (Dict.mem k old_states); simpl.
    + now rewrite andb_false_r.
    + rewrite andb_true_r, dict_get_set_same. now destruct (Dict.mem k items).
  - destruct (Dict.mem p items && negb (Dict.mem p old_states)); auto.
    destruct (Dict.mem k old_states); simpl; auto.
    rewrite dict_get_set_other; auto.
Qed.

(** When no path of the old snapshot is missing from the new one, the
    differ returns, with UPDATE for the shared paths whose timestamp grew,
    CREATE for the new paths and nothing else. *)
Lemma get_changes_without_deletion old_states new_states :
  Dict.wf old_states ->
  (forall p, In p (Dict.keys old_states) -> In p (Dict.keys new_states)) ->
  exists changes,
    get_changes old_states new_states = Ok changes /\
    forall p,
      Dict.get p changes =
      match Dict.get p old_states, Dict.get p new_states with
      | Some t, Some t' => if t <? t' then Some "UPDATE" else None
      | None, Some _ => Some "CREATE"
      | _, None => None
      end.
Proof.
  intros Hwf Hsub. unfold get_changes.
  destruct (get_changes_old_ok old_states new_states [] Hwf Hsub) as [c [-> Hget]].
  eexists. split; eauto. intros p.
  rewrite get_changes_new_get, Hget. unfold Dict.mem.
  destruct (Dict.get p old_states) as [t|] eqn:Eo,
           (Dict.get p new_states) as [t'|] eqn:En; simpl; auto.
Qed.

(** The differ raises KeyError exactly when some path of the old snapshot
    is missing from the new one. *)
Lemma get_changes_raises_iff old_states new_states :
  Dict.wf old_states ->
  get_changes old_states new_states = Raise KeyError <->
  exists p, In p (Dict.keys old_states) /\ ~ In p (Dict.keys new_states).
Proof.
  intros Hwf. split.
  - intros Hraise.
    destruct (existsb (fun p => negb (Dict.mem p new_states)) (Dict.keys old_states))
      eqn:E.
    + apply existsb_exists in E. destruct E as [p [Hp Hm]].
      exists p. split; auto. apply dict_mem_false_iff.
      now destruct (Dict.mem p new_states).
    + destruct (get_changes_without_deletion old_states new_states Hwf) as [c [Hc _]].
      * intros p Hp. apply dict_mem_true_iff.
        destruct (Dict.mem p new_states) eqn:Em; auto.
        assert (existsb (fun p => negb (Dict.mem p new_states)) (Dict.keys old_states)
                = true); [|congruence].
        apply existsb_exists. exists p. now rewrite Em.
      * congruence.
  - intros H. unfold get_changes. now rewrite get_changes_old_raises.
Qed.

(** No DELETE record ever comes out of the differ. *)
Lemma get_changes_never_delete old_states new_states changes p :
  Dict.wf old_states ->
  get_changes old_states new_states = Ok changes ->
  Dict.get p changes <> Some "DELETE".
Proof.
  intros Hwf Hok.
  destruct (existsb (fun p => negb (Dict.mem p new_states)) (Dict.keys old_states))
    eqn:E.
  - apply existsb_exists in E. destruct E as [q [Hq Hm]].
    assert (get_changes old_states new_states = Raise KeyError); [|congruence].
    apply get_changes_raises_iff; auto. exists q. split; auto.
    apply dict_mem_false_iff. now destruct (Dict.mem q new_states).
  - destruct (get_changes_without_deletion old_states new_states Hwf) as [c [Hc Hget]].
    + intros q Hq. apply dict_mem_true_iff.
      destruct (Dict.mem q new_states) eqn:Em; auto.
      assert (existsb (fun p => negb (Dict.mem p new_states)) (Dict.keys old_states)
              = true); [|congruence].
      apply existsb_exists. exists q. now rewrite Em.
    + rewrite Hok in Hc. injection Hc as <-. rewrite Hget.
      destruct (Dict.get p old_states), (Dict.get p new_states);
        try destruct (_ <? _); discriminate.
Qed.

(** C1 (DELETE part, at the failing input): the differ run on an old
    snapshot holding a.txt and a new snapshot without it raises KeyError;
    it returns no change set, hence no DELETE record for a.txt. *)
Theorem get_changes_deleted_path_raises :
  get_changes [("a.txt", 1)] [] = Raise KeyError.
Proof. reflexivity. Qed.

(** C2 (at the failing input): the differ is not total; with b.txt
    updated and a.txt absent from the new snapshot, the lookup
    new_states["a.txt"] is out of domain and the run ends in KeyError. *)
Theorem get_changes_not_total :
  get_changes [("b.txt", 2); ("a.txt", 1)] [("b.txt", 3)] = Raise KeyError.
Proof. reflexivity. Qed.

(** ** Dispatch *)

Section DispatchFacts.

Variable time_time : nat -> Q.
Variable subprocess_run : string -> string -> result CompletedProcess.
Variable re_search : string -> string -> option bool.

(* one handler of the inner loop: the handler and the world stay as they
   were, and the only outcomes are a normal return, TypeError from the
   call that leaves action unbound, or re.error *)
Lemma dispatch_to_no_effect file_path action pattern s :
  snd (dispatch_to time_time subprocess_run re_search file_path action pattern s) = s.
Proof.
  unfold dispatch_to.
  destruct (re_search pattern file_path) as [[|]|]; auto.
  unfold bind, get_state. simpl.
  destruct (py_in (VStr action) (actions (fst s))); auto.
Qed.

Lemma for_items_no_effect {V : Type} (body : string -> M (V * World) unit)
    (d : dict V) (w : World) :
  (forall k s, snd (body k s) = s) ->
  snd (for_items body d w) = (d, w).
Proof.
  intros Hbody. revert w. induction d as [|[k v] d IH]; intros w; auto.
  simpl. specialize (Hbody k (v, w)).
  destruct (body k (v, w)) as [[[]|e] [v' w']]; simpl in Hbody;
    injection Hbody as -> ->; auto.
  specialize (IH w). destruct (for_items body d w) as [r [d'' w'']].
  simpl in IH. now injection IH as -> ->.
Qed.

(** Dispatch changes nothing: whatever the rules and the change set,
    process_changes leaves the observer, its handlers and the world as
    they were, so no command is launched and no line is logged. *)
Lemma process_changes_no_effect changes s :
  snd (process_changes time_time subprocess_run re_search changes s) = s.
Proof.
  unfold process_changes. revert s.
  induction changes as [|[file_path action] changes IH]; intros s; auto.
  simpl. unfold bind at 1.
  pose proof (for_items_no_effect
                (dispatch_to time_time subprocess_run re_search file_path action)
                (handlers (fst s)) (snd s)
                (dispatch_to_no_effect file_path action)) as Hitems.
  destruct (for_items _ (handlers (fst s)) (snd s)) as [r [hs w]].
  simpl in Hitems. injection Hitems as -> ->.
  assert (Hs : (set_handlers (handlers (fst s)) (fst s), snd s) = s).
  { destruct s as [[] ?]; reflexivity. }
  rewrite Hs. destruct r; auto.
Qed.

End DispatchFacts.

(** C3 (at the failing input): with the rules of the routing example
    loaded by read_handlers, the CREATE of draft.pdf and the UPDATE of
    final.pdf that the differ reports reach no handler: dispatch returns
    with the world unchanged, so neither scriptB nor scriptA is run.  The
    differ stores the action as a string and the rules hold enum members,
    so the membership test never succeeds; with rules that hold the
    strings, the call that follows omits the action argument and ends in
    TypeError, again with nothing run. *)
Theorem routing_example_fires_nothing :
  read_handlers (clock_of []) (Some routing_config) None world0
    = (Ok routing_handlers, mkWorld 2 [])
  /\ get_changes [] [("draft.pdf", 5)] = Ok [("draft.pdf", "CREATE")]
  /\ get_changes [("final.pdf", 5)] [("final.pdf", 6)] = Ok [("final.pdf", "UPDATE")]
  /\ ReFragment.search "draft" "draft.pdf" = Some true
  /\ ReFragment.search "\.pdf$" "final.pdf" = Some true
  /\ process_changes (clock_of []) run_ok ReFragment.search
       [("draft.pdf", "CREATE")] (observer_of [] true routing_handlers, world0)
     = (Ok tt, (observer_of [] true routing_handlers, world0))
  /\ process_changes (clock_of []) run_ok ReFragment.search
       [("final.pdf", "UPDATE")] (observer_of [] true routing_handlers, world0)
     = (Ok tt, (observer_of [] true routing_handlers, world0))
  /\ process_changes (clock_of []) run_ok ReFragment.search
       [("draft.pdf", "CREATE")] (observer_of [] true routing_handlers_str, world0)
     = (Raise TypeError, (observer_of [] true routing_handlers_str, world0)).
Proof. repeat split; reflexivity. Qed.

(** ** Debounce *)

Lemma Qltb_true_iff (x y : Q) : Qltb x y = true <-> (x < y)%Q.
Proof.
  unfold Qltb. rewrite negb_true_iff. split.
  - intros H. apply Qnot_le_lt. intros Hle.
    apply Qle_bool_iff in Hle. congruence.
  - intros H. destruct (Qle_bool y x) eqn:E; auto.
    apply Qle_bool_iff in E. exfalso. now apply (Qlt_not_le x y).
Qed.

Lemma Qltb_false_iff (x y : Q) : Qltb x y = false <-> (y <= x)%Q.
Proof.
  unfold Qltb. rewrite negb_false_iff. apply Qle_bool_iff.
Qed.

Lemma is_last_file_true_iff src_path h :
  is_last_file src_path h = true <-> last_file h = Some src_path.
Proof.
  unfold is_last_file. destruct (last_file h) as [f|].
  - destruct (String.eqb_spec src_path f); split; congruence.
  - split; discriminate.
Qed.

Section DebounceFacts.

Variable time_time : nat -> Q.
Variable subprocess_run : string -> string -> result CompletedProcess.

(* the trigger is let through: the line is logged, the path and the time
   are stored and subprocess.run is called; clock_reads is the number of
   readings that the test of the elapsed time took (none when the path is
   not the last one) *)
Lemma process_update_lets_through h src_path a w (clock_reads : nat) :
  (is_last_file src_path h = false /\ clock_reads = 0%nat) \/
  (is_last_file src_path h = true /\ clock_reads = 1%nat /\
   (1 <= time_time (reads w) - last_update h)%Q) ->
  process_update time_time subprocess_run src_path (VAction a) (h, w)
  = (run_result (subprocess_run (script h) src_path),
     (triggered src_path (time_time (clock_reads + reads w)) h,
      mkWorld (S (clock_reads + reads w))
        (trace w ++ file_line h src_path a :: EvRun (script h) src_path
           :: run_report (subprocess_run (script h) src_path)))).
Proof.
  intros Hcase. unfold process_update, file_line, triggered, run_report, report.
  unfold bind, of_result, get_state, in_world, on_self, zoom, log, emit, modify,
    time_now, ret, raise. simpl.
  assert (Hgo :
    (if is_last_file src_path h
     then Qltb (time_time (reads w) - last_update h) 1 else false) = false
    /\ clock_reads = (if is_last_file src_path h then 1 else 0)%nat).
  { destruct Hcase as [[-> ->]|[-> [-> Hle]]]; auto.
    split; auto. now apply Qltb_false_iff. }
  destruct Hgo as [Hgo ->].
  destruct (is_last_file src_path h); simpl in *; rewrite ?Hgo; simpl;
    destruct (subprocess_run (script h) src_path) as [cp|e]; simpl;
    repeat match goal with
           | |- context [String.eqb ?a ""] => destruct (String.eqb a ""); simpl
           end;
    rewrite <- ?app_assoc; reflexivity.
Qed.

Lemma process_update_fires h src_path a w (clock_reads : nat) :
  (is_last_file src_path h = false /\ clock_reads = 0%nat) \/
  (is_last_file src_path h = true /\ clock_reads = 1%nat /\
   (1 <= time_time (reads w) - last_update h)%Q) ->
  exists r w' tail,
    process_update time_time subprocess_run src_path (VAction a) (h, w)
    = (r, (set_last_update (time_time (clock_reads + reads w))
             (set_last_file (Some src_path) h), w'))
    /\ reads w' = S (clock_reads + reads w)
    /\ trace w' = (trace w ++ file_line h src_path a
                     :: EvRun (script h) src_path :: tail)%list.
Proof.
  intros Hcase. rewrite (process_update_lets_through h src_path a w clock_reads Hcase).
  do 3 eexists. split; [reflexivity|]. split; reflexivity.
Qed.

(* the trigger is held back: the line is logged and nothing else happens *)
Lemma process_update_skips h src_path a w :
  is_last_file src_path h = true ->
  (time_time (reads w) - last_update h < 1)%Q ->
  process_update time_time subprocess_run src_path (VAction a) (h, w)
  = (Ok tt, (h, mkWorld (S (reads w)) (trace w ++ [file_line h src_path a]))).
Proof.
  intros Hlast Hlt. apply Qltb_true_iff in Hlt.
  unfold process_update, file_line.
  unfold bind, of_result, get_state, in_world, on_self, zoom, log, emit, modify,
    time_now, ret, raise. simpl.
  rewrite Hlast. simpl. rewrite Hlt. reflexivity.
Qed.

End DebounceFacts.

(** C4: the debounce of process_update.  A trigger of P first logs the
    File line (the log of step 1, which comes before the debounce test).
    When P differs from the handler's last-triggered path, or at least 1
    second has passed since the time stored at the handler's last trigger,
    the trigger is let through: P and the current time become the
    handler's debounce state and the command is called.  When P is the
    last-triggered path and less than 1 second has passed, the invocation
    is skipped: no process is launched, nothing more is logged and the
    debounce state stays as it was.  A handler that was never triggered
    lets its first trigger through.  So the trigger of P that follows one
    that was let through at time t is skipped when its clock reading is
    less than 1 second after t, and let through otherwise. *)
Theorem process_update_debounce :
  forall (time_time : nat -> Q)
         (subprocess_run : string -> string -> result CompletedProcess)
         (h : ChangeHandler) (P : string) (a : Action) (w : World),
    (last_file h <> Some P ->
     process_update time_time subprocess_run P (VAction a) (h, w)
     = (run_result (subprocess_run (script h) P),
        (triggered P (time_time (reads w)) h,
         mkWorld (S (reads w))
           (trace w ++ file_line h P a :: EvRun (script h) P
              :: run_report (subprocess_run (script h) P)))))
    /\ (last_file h = Some P ->
        (1 <= time_time (reads w) - last_update h)%Q ->
        process_update time_time subprocess_run P (VAction a) (h, w)
        = (run_result (subprocess_run (script h) P),
           (triggered P (time_time (S (reads w))) h,
            mkWorld (S (S (reads w)))
              (trace w ++ file_line h P a :: EvRun (script h) P
                 :: run_report (subprocess_run (script h) P)))))
    /\ (last_file h = Some P ->
        (time_time (reads w) - last_update h < 1)%Q ->
        process_update time_time subprocess_run P (VAction a) (h, w)
        = (Ok tt, (h, mkWorld (S (reads w)) (trace w ++ [file_line h P a]))))
    /\ (last_file h = None ->
        exists r w',
          process_update time_time subprocess_run P (VAction a) (h, w)
          = (r, (triggered P (time_time (reads w)) h, w'))
          /\ In (EvRun (script h) P) (trace w'))
    /\ (forall (t : Q) (w1 : World),
          let h1 := triggered P t h in
          ((time_time (reads w1) - t < 1)%Q ->
           process_update time_time subprocess_run P (VAction a) (h1, w1)
           = (Ok tt, (h1, mkWorld (S (reads w1)) (trace w1 ++ [file_line h P a]))))
          /\ ((1 <= time_time (reads w1) - t)%Q ->
              exists r w2,
                process_update time_time subprocess_run P (VAction a) (h1, w1)
                = (r, (triggered P (time_time (S (reads w1))) h, w2))
                /\ trace w2 = (trace w1 ++ file_line h P a :: EvRun (script h) P
                                 :: run_report (subprocess_run (script h) P))%list)).
Proof.
  intros time_time subprocess_run h P a w.
  assert (Hnot : last_file h <> Some P -> is_last_file P h = false).
  { intros Hne. destruct (is_last_file P h) eqn:E; auto.
    apply is_last_file_true_iff in E. contradiction. }
  split; [|split; [|split; [|split]]].
  - intros Hne.
    exact (process_update_lets_through time_time subprocess_run h P a w 0
             (or_introl (conj (Hnot Hne) eq_refl))).
  - intros Hlast Hle. apply is_last_file_true_iff in Hlast.
    exact (process_update_lets_through time_time subprocess_run h P a w 1
             (or_intror (conj Hlast (conj eq_refl Hle)))).
  - intros Hlast Hlt. apply process_update_skips; auto.
    now apply is_last_file_true_iff.
  - intros Hnone.
    assert (Hne : last_file h <> Some P) by congruence.
    rewrite (process_update_lets_through time_time subprocess_run h P a w 0
               (or_introl (conj (Hnot Hne) eq_refl))).
    do 2 eexists. split; [reflexivity|]. simpl.
    apply in_or_app. right. right. now left.
  - intros t w1 h1.
    assert (Hlast : is_last_file P h1 = true).
    { unfold h1, is_last_file. simpl. apply String.eqb_refl. }
    split.
    + intros Hlt.
      exact (process_update_skips time_time subprocess_run h1 P a w1 Hlast Hlt).
    + intros Hle.
      rewrite (process_update_lets_through time_time subprocess_run h1 P a w1 1
                 (or_intror (conj Hlast (conj eq_refl Hle)))).
      do 2 eexists. split; reflexivity.
Qed.

Lemma process_update_debounce_witness :
  process_update (clock_of [21 # 2]) run_ok "a.pdf" (VAction UPDATE)
    (debounce_handler, world0)
  = (Ok tt, (debounce_handler,
             mkWorld 1 [file_line debounce_handler "a.pdf" UPDATE])).
Proof.
  apply (proj1 (proj2 (proj2 (process_update_debounce (clock_of [21 # 2]) run_ok
                                debounce_handler "a.pdf" UPDATE world0)))).
  - reflexivity.
  - reflexivity.
Defined.

(** The debounce scenario: a handler made when the clock reads 0 is
    triggered for a.pdf at 10 (the command is called), again at 10.9 (held
    back) and again at 11.1 (the command is called). *)
Example debounce_scenario :
  let clock := clock_of [0; 10; 109 # 10; 111 # 10; 111 # 10]%Q in
  let trigger := process_update clock run_ok "a.pdf" (VAction UPDATE) in
  match ChangeHandler_init clock [VAction UPDATE] "scriptA" None world0 with
  | (Raise _, _) => False
  | (Ok h0, w0) =>
      let '(_, (h1, w1)) := trigger (h0, w0) in
      let '(_, (h2, w2)) := trigger (h1, w1) in
      let '(_, (h3, w3)) := trigger (h2, w2) in
      trace w3 =
      [ EvPrint "File UPDATE: a.pdf"; EvRun "scriptA" "a.pdf";
        EvPrint "finished with code 0";
        EvPrint "File UPDATE: a.pdf";
        EvPrint "File UPDATE: a.pdf"; EvRun "scriptA" "a.pdf";
        EvPrint "finished with code 0" ]
      /\ last_update h1 = 10%Q /\ last_update h2 = 10%Q
      /\ last_update h3 = (111 # 10)%Q
  end.
Proof. vm_compute. repeat split; reflexivity. Qed.

(** ** The polling loop *)

Ltac run_monad :=
  unfold bind, ret, raise, of_result, get_state, in_world, on_self, zoom,
    modify, emit, log, time_now; simpl.

Lemma get_changes_old_keeps_records items new_states changes changes' :
  get_changes_old items new_states changes = Ok changes' ->
  changes <> [] -> changes' <> [].
Proof.
  revert changes. induction items as [|[k t] items IH]; simpl; intros changes.
  - now intros [= ->].
  - destruct (Dict.get k new_states) as [t'|]; [|discriminate].
    intros Hrun Hne. apply (IH _ Hrun).
    destruct (t <? t'); [apply dict_set_not_nil|].
    destruct (negb (Dict.mem k new_states)); [apply dict_set_not_nil|auto].
Qed.

Lemma get_changes_old_nil items new_states changes :
  get_changes_old items new_states changes = Ok [] ->
  changes = [] /\
  forall p t, In (p, t) items ->
    exists t', Dict.get p new_states = Some t' /\ t' <= t.
Proof.
  revert changes. induction items as [|[k t] items IH]; simpl; intros changes.
  - intros [= ->]. split; [auto | intros ? ? []].
  - unfold Dict.mem. destruct (Dict.get k new_states) as [t'|] eqn:E; [|discriminate].
    simpl. intros Hrun. destruct (IH _ Hrun) as [Hnil Hrest].
    destruct (Z.ltb_spec t t') as [Hlt|Hge].
    + now apply dict_set_not_nil in Hnil.
    + split; auto. intros p t0 [[= -> ->]|Hin]; eauto.
Qed.

Lemma get_changes_new_nil items old_states changes :
  get_changes_new items old_states changes = [] ->
  changes = [] /\ forall p, In p (Dict.keys items) -> In p (Dict.keys old_states).
Proof.
  revert changes. induction items as [|[k t] items IH]; simpl; intros changes.
  - intros ->. split; [auto | intros ? []].
  - intros Hrun. destruct (IH _ Hrun) as [Hnil Hrest].
    destruct (Dict.mem k old_states) eqn:Em; simpl in Hnil.
    + split; auto. intros p [<-|Hin]; auto. now apply dict_mem_true_iff.
    + now apply dict_set_not_nil in Hnil.
Qed.

(** An empty change set means that the two snapshots hold the same paths
    and that no timestamp has grown. *)
Lemma get_changes_nil old_states new_states :
  get_changes old_states new_states = Ok [] ->
  (forall p, In p (Dict.keys new_states) <-> In p (Dict.keys old_states))
  /\ (forall p t, Dict.get p old_states = Some t ->
        exists t', Dict.get p new_states = Some t' /\ t' <= t).
Proof.
  unfold get_changes.
  destruct (get_changes_old old_states new_states []) as [c|e] eqn:Eold;
    [|discriminate].
  intros [= Hnew]. apply get_changes_new_nil in Hnew. destruct Hnew as [-> Hsub].
  apply get_changes_old_nil in Eold. destruct Eold as [_ Hold].
  split.
  - intros p. split; auto. intros Hin.
    apply in_map_iff in Hin. destruct Hin as [[k t] [<- Hin]].
    destruct (Hold _ _ Hin) as [t' [Hget _]].
    eapply dict_In_keys, dict_get_In, Hget.
  - intros p t Hget. apply Hold. now apply dict_get_In.
Qed.

Section LoopFacts.

Variable time_time : nat -> Q.
Variable subprocess_run : string -> string -> result CompletedProcess.
Variable re_search : string -> string -> option bool.

Local Abbreviation poll_turn := (poll time_time subprocess_run re_search).
Local Abbreviation dispatch := (process_changes time_time subprocess_run re_search).
Local Abbreviation loop := (__process__ time_time subprocess_run re_search).

(* what a turn does once the capture and the differ have returned *)
Lemma poll_after_diff root obs w new_updates changes :
  capture (recursive obs) root = Ok new_updates ->
  get_changes (last_updates obs) new_updates = Ok changes ->
  poll_turn root (obs, w) =
  match changes with
  | [] => (Ok tt, (obs, slept w))
  | _ :: _ =>
      (fst (dispatch changes
              (set_last_updates new_updates obs,
               mkWorld (reads w)
                 ((trace w ++ [EvSleep 1]) ++ [EvPrint "changes detected"]))),
       (set_last_updates new_updates obs,
        mkWorld (reads w)
          ((trace w ++ [EvSleep 1]) ++ [EvPrint "changes detected"])))
  end.
Proof.
  intros Hcap Hdiff. unfold poll. run_monad.
  rewrite Hcap. simpl. rewrite Hdiff. simpl.
  destruct changes as [|c changes]; auto.
  run_monad.
  pose proof (process_changes_no_effect time_time subprocess_run re_search
                (c :: changes)
                (set_last_updates new_updates obs,
                 mkWorld (reads w)
                   ((trace w ++ [EvSleep 1]) ++ [EvPrint "changes detected"])))
    as Hsame.
  destruct (dispatch _ _) as [r s']. simpl in Hsame. now subst s'.
Qed.

(* a turn whose capture raises *)
Lemma poll_capture_raises root obs w e :
  capture (recursive obs) root = Raise e ->
  poll_turn root (obs, w) = (Raise e, (obs, slept w)).
Proof.
  intros Hcap. unfold poll. run_monad. now rewrite Hcap.
Qed.

(* the loop has no handler: a turn that raises is its last *)
Lemma loop_raises turn turns obs w e s' :
  running obs = true ->
  stop_requested turn = false ->
  poll_turn (root turn) (obs, w) = (Raise e, s') ->
  loop (turn :: turns) (obs, w) = (Raise e, s').
Proof.
  intros Hrun Hstop Hpoll. simpl. rewrite Hstop. run_monad.
  rewrite Hrun. now rewrite Hpoll.
Qed.

(* a turn that returns is followed by the next *)
Lemma loop_continues turn turns obs w s' :
  running obs = true ->
  stop_requested turn = false ->
  poll_turn (root turn) (obs, w) = (Ok tt, s') ->
  loop (turn :: turns) (obs, w) = loop turns s'.
Proof.
  intros Hrun Hstop Hpoll. simpl. rewrite Hstop. run_monad.
  rewrite Hrun. now rewrite Hpoll.
Qed.

End LoopFacts.

(** C5 (amended): after a completed turn of the loop whose capture
    succeeded, the baseline is the captured snapshot when the change set
    is not empty; when the change set is empty the baseline is left as it
    was, and it then holds the same paths as the captured snapshot, each
    with a timestamp that is not smaller than the captured one. *)
Theorem poll_baseline :
  forall (time_time : nat -> Q)
         (subprocess_run : string -> string -> result CompletedProcess)
         (re_search : string -> string -> option bool)
         (root : option node) (obs obs' : Observer) (w w' : World)
         (new_updates : Snapshot),
    capture (recursive obs) root = Ok new_updates ->
    poll time_time subprocess_run re_search root (obs, w) = (Ok tt, (obs', w')) ->
    exists changes,
      get_changes (last_updates obs) new_updates = Ok changes
      /\ (changes <> [] -> last_updates obs' = new_updates)
      /\ (changes = [] ->
          last_updates obs' = last_updates obs
          /\ (forall p, In p (Dict.keys new_updates)
                        <-> In p (Dict.keys (last_updates obs)))
          /\ (forall p t, Dict.get p (last_updates obs) = Some t ->
                exists t', Dict.get p new_updates = Some t' /\ t' <= t)).
Proof.
  intros time_time subprocess_run re_search root obs obs' w w' new_updates
         Hcap Hpoll.
  destruct (get_changes (last_updates obs) new_updates) as [changes|e] eqn:Hdiff.
  - exists changes. split; auto.
    rewrite (poll_after_diff _ _ _ _ _ _ _ _ Hcap Hdiff) in Hpoll.
    destruct changes as [|c changes].
    + injection Hpoll as <- <-. split; [congruence|].
      intros _. split; auto. now apply get_changes_nil.
    + injection Hpoll as _ <- <-. split; [auto | discriminate].
  - unfold poll in Hpoll. revert Hpoll. run_monad.
    rewrite Hcap. simpl. rewrite Hdiff. discriminate.
Qed.

Lemma poll_baseline_witness :
  exists changes,
    get_changes [("a.txt", 5)] [("a.txt", 3)] = Ok changes
    /\ (changes <> [] ->
        last_updates (observer_of [("a.txt", 5)] true routing_handlers)
        = [("a.txt", 3)])
    /\ (changes = [] ->
        last_updates (observer_of [("a.txt", 5)] true routing_handlers)
        = [("a.txt", 5)]
        /\ (forall p, In p (Dict.keys [("a.txt", 3)])
                      <-> In p (Dict.keys [("a.txt", 5)]))
        /\ (forall p t, Dict.get p [("a.txt", 5)] = Some t ->
              exists t', Dict.get p [("a.txt", 3)] = Some t' /\ t' <= t)).
Proof.
  apply (poll_baseline (clock_of []) run_ok ReFragment.search tree_a3
           (observer_of [("a.txt", 5)] true routing_handlers)
           (observer_of [("a.txt", 5)] true routing_handlers)
           world0 (slept world0) [("a.txt", 3)]).
  - reflexivity.
  - reflexivity.
Defined.

(** C5 as stated fails: a.txt went from timestamp 5 back to 3, the change
    set is empty, the turn completes and the baseline still holds 5. *)
Lemma poll_keeps_baseline_on_empty_diff :
  capture false tree_a3 = Ok [("a.txt", 3)]
  /\ poll (clock_of []) run_ok ReFragment.search tree_a3
       (observer_of [("a.txt", 5)] true routing_handlers, world0)
     = (Ok tt, (observer_of [("a.txt", 5)] true routing_handlers, slept world0))
  /\ last_updates (observer_of [("a.txt", 5)] true routing_handlers)
     <> [("a.txt", 3)].
Proof. repeat split; try reflexivity. discriminate. Qed.

(** C8 (amended): a capture that fails during a turn of the running loop
    leaves the baseline as it was and dispatches nothing, and the error
    ends the loop: it is raised out of __process__ and no later turn
    runs. *)
Theorem capture_failure_ends_loop :
  forall (time_time : nat -> Q)
         (subprocess_run : string -> string -> result CompletedProcess)
         (re_search : string -> string -> option bool)
         (turn : Turn) (turns : list Turn) (obs : Observer) (w : World) (e : exn),
    running obs = true ->
    stop_requested turn = false ->
    capture (recursive obs) (root turn) = Raise e ->
    __process__ time_time subprocess_run re_search (turn :: turns) (obs, w)
    = (Raise e, (obs, slept w)).
Proof.
  intros time_time subprocess_run re_search turn turns obs w e Hrun Hstop Hcap.
  apply loop_raises; auto. now apply poll_capture_raises.
Qed.

Lemma capture_failure_ends_loop_witness :
  __process__ (clock_of []) run_ok ReFragment.search
    [mkTurn false None; mkTurn false tree_a3]
    (observer_of [("a.txt", 1)] true routing_handlers, world0)
  = (Raise OSError, (observer_of [("a.txt", 1)] true routing_handlers, slept world0)).
Proof.
  apply (capture_failure_ends_loop (clock_of []) run_ok ReFragment.search
           (mkTurn false None) [mkTurn false tree_a3]
           (observer_of [("a.txt", 1)] true routing_handlers) world0 OSError).
  - reflexivity.
  - reflexivity.
  - reflexivity.
Defined.

(** C8 as stated fails: the watched directory is missing on the first
    turn and back on the second, with a.txt updated; the loop does not
    reach the second turn, it ends with the error of the first after a
    single sleep. *)
Lemma loop_ends_on_capture_failure :
  capture false None = Raise OSError
  /\ fst (__process__ (clock_of []) run_ok ReFragment.search
            [mkTurn false None; mkTurn false tree_a3]
            (observer_of [("a.txt", 1)] true routing_handlers, world0))
     = Raise OSError
  /\ trace (snd (snd (__process__ (clock_of []) run_ok ReFragment.search
                        [mkTurn false None; mkTurn false tree_a3]
                        (observer_of [("a.txt", 1)] true routing_handlers, world0))))
     = [EvSleep 1]
  /\ fst (__process__ (clock_of []) run_ok ReFragment.search
            [mkTurn false tree_a3; mkTurn false tree_a3]
            (observer_of [("a.txt", 1)] true routing_handlers, world0))
     = Ok Horizon.
Proof. repeat split; reflexivity. Qed.

(** ** Failures at a handler *)

Section DispatchRaises.

Variable time_time : nat -> Q.
Variable subprocess_run : string -> string -> result CompletedProcess.
Variable re_search : string -> string -> option bool.

Lemma dispatch_to_rule file_path action pattern h w :
  re_search pattern file_path <> None ->
  dispatch_to time_time subprocess_run re_search file_path action pattern (h, w)
  = (if rule_fires re_search (file_path, action) (pattern, h)
     then Raise TypeError else Ok tt, (h, w)).
Proof.
  intros Hcompile. unfold dispatch_to, rule_fires. simpl.
  destruct (re_search pattern file_path) as [[|]|]; auto; [|congruence].
  unfold bind, get_state. simpl.
  destruct (py_in (VStr action) (actions h)); reflexivity.
Qed.

Lemma for_items_dispatch file_path action hs w :
  (forall rule, In rule hs -> re_search (fst rule) file_path <> None) ->
  for_items (dispatch_to time_time subprocess_run re_search file_path action) hs w
  = (if existsb (rule_fires re_search (file_path, action)) hs
     then Raise TypeError else Ok tt, (hs, w)).
Proof.
  induction hs as [|[pattern h] hs IH]; intros Hcompile; auto.
  simpl for_items. rewrite dispatch_to_rule by (apply (Hcompile (pattern, h)); now left).
  simpl existsb. destruct (rule_fires re_search (file_path, action) (pattern, h)); auto.
  rewrite IH by (intros rule Hin; apply Hcompile; now right).
  simpl. now destruct (existsb _ hs).
Qed.

Lemma process_changes_dispatch changes obs w :
  (forall change rule, In change changes -> In rule (handlers obs) ->
                       re_search (fst rule) (fst change) <> None) ->
  process_changes time_time subprocess_run re_search changes (obs, w)
  = (if existsb (fun change => existsb (rule_fires re_search change) (handlers obs))
          changes
     then Raise TypeError else Ok tt, (obs, w)).
Proof.
  unfold process_changes.
  induction changes as [|[file_path action] changes IH]; intros Hcompile; auto.
  simpl. unfold bind at 1. simpl.
  rewrite for_items_dispatch
    by (intros rule Hin; apply (Hcompile (file_path, action) rule); auto; now left).
  assert (Hs : set_handlers (handlers obs) obs = obs) by now destruct obs.
  rewrite Hs.
  destruct (existsb (rule_fires re_search (file_path, action)) (handlers obs));
    auto.
  apply IH. intros change rule Hin. apply Hcompile. now right.
Qed.

End DispatchRaises.




(** ** Starting the loop *)

(** C9 (amended): start() has no guard.  Every call returns normally,
    sets the running flag, starts one more thread on the polling loop and
    keeps only that last thread in the session, whether or not the session
    was running. *)
Theorem start_always_starts_a_loop :
  forall (obs : Observer) (w : World),
    let t := List.length (started_threads w) in
    start (obs, w)
    = (Ok tt, (set_thread (Some t) (set_running true obs),
               mkWorld (reads w) (trace w ++ [EvThreadStart t])))
    /\ started_threads (snd (snd (start (obs, w)))) = (started_threads w ++ [t])%list.
Proof.
  intros obs w t. split; [reflexivity|].
  unfold start. run_monad. unfold started_threads. simpl.
  rewrite flat_map_app. reflexivity.
Qed.

(** C9 as stated fails: a second start() on a running session is neither
    an error nor a no-op; it starts a second polling loop. *)
Lemma start_twice_starts_two_loops :
  let s1 := snd (start (observer_of [] false [], world0)) in
  Observer_init "." false [] None (Some (Dir 0 [])) = Ok (observer_of [] false [])
  /\ running (fst s1) = true
  /\ fst (start s1) = Ok tt
  /\ snd (start s1) <> s1
  /\ started_threads (snd s1) = [0%nat]
  /\ started_threads (snd (snd (start s1))) = [0%nat; 1%nat].
Proof. repeat split; try reflexivity. discriminate. Qed.

(** ** The handler registry *)

Lemma add_handlers_wf regs obs :
  Dict.wf (handlers obs) -> Dict.wf (handlers (add_handlers regs obs)).
Proof.
  revert obs. induction regs as [|[p h] regs IH]; intros obs Hwf; auto.
  simpl. apply IH. simpl. now apply dict_wf_set.
Qed.

Lemma add_handlers_other regs obs p :
  ~ In p (map fst regs) ->
  Dict.get p (handlers (add_handlers regs obs)) = Dict.get p (handlers obs).
Proof.
  revert obs. induction regs as [|[q h] regs IH]; intros obs Hnotin; auto.
  simpl in *. rewrite IH by tauto. simpl.
  apply dict_get_set_other. tauto.
Qed.

Lemma add_handlers_last pre p h post obs :
  ~ In p (map fst post) ->
  Dict.get p (handlers (add_handlers (pre ++ (p, h) :: post) obs)) = Some h.
Proof.
  intros Hnotin. unfold add_handlers. rewrite fold_left_app. simpl.
  fold (add_handlers post
          (add_handler p h
             (fold_left (fun o r => add_handler (fst r) (snd r) o) pre obs))).
  rewrite add_handlers_other by auto. simpl. apply dict_get_set_same.
Qed.

Section RegistryFacts.

Variable time_time : nat -> Q.

Lemma read_handlers_loop_wf configuration tb hs w hs' w' :
  read_handlers_loop time_time configuration tb hs w = (Ok hs', w') ->
  Dict.wf hs -> Dict.wf hs'.
Proof.
  revert hs w. induction configuration as [|hd configuration IH]; intros hs w.
  - simpl. unfold ret. now intros [= <- <-].
  - simpl. run_monad. unfold ChangeHandler_init. run_monad.
    destruct (read_actions (hd_actions hd) []) as [acts|e]; simpl; [|discriminate].
    intros Hrun Hwf. eapply IH; eauto using dict_wf_set.
Qed.

Lemma read_handlers_loop_other configuration tb hs w hs' w' p :
  read_handlers_loop time_time configuration tb hs w = (Ok hs', w') ->
  ~ In p (map hd_pattern configuration) ->
  Dict.get p hs' = Dict.get p hs.
Proof.
  revert hs w. induction configuration as [|hd configuration IH]; intros hs w.
  - simpl. unfold ret. now intros [= <- <-].
  - simpl. run_monad. unfold ChangeHandler_init. run_monad.
    destruct (read_actions (hd_actions hd) []) as [acts|e]; simpl; [|discriminate].
    intros Hrun Hnotin. rewrite (IH _ _ Hrun) by tauto.
    apply dict_get_set_other. tauto.
Qed.

Lemma read_handlers_loop_last pre hd post tb hs w hs' w' :
  read_handlers_loop time_time (pre ++ hd :: post) tb hs w = (Ok hs', w') ->
  ~ In (hd_pattern hd) (map hd_pattern post) ->
  exists h,
    Dict.get (hd_pattern hd) hs' = Some h
    /\ script h = hd_script hd
    /\ read_actions (hd_actions hd) [] = Ok (actions h)
    /\ last_file h = None.
Proof.
  revert hs w. induction pre as [|hd0 pre IH]; intros hs w.
  - simpl. run_monad. unfold ChangeHandler_init. run_monad.
    destruct (read_actions (hd_actions hd) []) as [acts|e]; simpl; [|discriminate].
    intros Hrun Hnotin.
    rewrite (read_handlers_loop_other _ _ _ _ _ _ _ Hrun Hnotin).
    rewrite dict_get_set_same. eexists. split; [reflexivity|]. auto.
  - simpl. run_monad. unfold ChangeHandler_init. run_monad.
    destruct (read_actions (hd_actions hd0) []) as [acts|e]; simpl; [|discriminate].
    intros Hrun Hnotin. eapply IH; eauto.
Qed.

End RegistryFacts.

(** C10: the registry holds at most one rule per pattern.  After loading
    a configuration and any sequence of add_handler calls, no pattern
    occurs twice among the rules that dispatch iterates over; a pattern
    names the handler that was registered for it last, by add_handler or,
    failing that, by the configuration; and registering under a pattern
    that is already there replaces its handler in place without adding a
    rule. *)
Theorem registry_one_rule_per_pattern :
  forall (time_time : nat -> Q) (configuration : list handler_data)
         (tb : option nat) (w w' : World) (hs : dict ChangeHandler)
         (regs : list (string * ChangeHandler)) (obs : Observer),
    read_handlers time_time (Some configuration) tb w = (Ok hs, w') ->
    handlers obs = hs ->
    Dict.wf (handlers (add_handlers regs obs))
    /\ (forall p,
          (List.length (filter (fun item => String.eqb (fst item) p)
                          (handlers (add_handlers regs obs))) <= 1)%nat)
    /\ (forall pre p h post,
          regs = (pre ++ (p, h) :: post)%list ->
          ~ In p (map fst post) ->
          Dict.get p (handlers (add_handlers regs obs)) = Some h)
    /\ (forall pre hd post,
          configuration = (pre ++ hd :: post)%list ->
          ~ In (hd_pattern hd) (map hd_pattern post) ->
          ~ In (hd_pattern hd) (map fst regs) ->
          exists h,
            Dict.get (hd_pattern hd) (handlers (add_handlers regs obs)) = Some h
            /\ script h = hd_script hd
            /\ read_actions (hd_actions hd) [] = Ok (actions h))
    /\ (forall p h,
          In p (Dict.keys (handlers (add_handlers regs obs))) ->
          Dict.keys (handlers (add_handler p h (add_handlers regs obs)))
          = Dict.keys (handlers (add_handlers regs obs))
          /\ Dict.get p (handlers (add_handler p h (add_handlers regs obs))) = Some h).
Proof.
  intros time_time configuration tb w w' hs regs obs Hread Hobs.
  unfold read_handlers in Hread.
  assert (Hwf : Dict.wf (handlers (add_handlers regs obs))).
  { apply add_handlers_wf. rewrite Hobs.
    eapply read_handlers_loop_wf; eauto. constructor. }
  split; [exact Hwf|]. split; [|split; [|split]].
  - intros p. now apply dict_wf_one_item.
  - intros pre p h post -> Hnotin. now apply add_handlers_last.
  - intros pre hd post -> Hpost Hregs.
    rewrite add_handlers_other by auto. rewrite Hobs.
    destruct (read_handlers_loop_last _ _ _ _ _ _ _ _ _ Hread Hpost)
      as [h [Hget [Hscript [Hacts _]]]].
    exists h. auto.
  - intros p h Hin. simpl. split; [|apply dict_get_set_same].
    rewrite dict_keys_set. apply dict_mem_true_iff in Hin. now rewrite Hin.
Qed.

Lemma registry_one_rule_per_pattern_witness :
  Dict.wf (handlers (add_handlers [("draft", debounce_handler)]
                       (observer_of [] false routing_handlers)))
  /\ Dict.get "draft"
       (handlers (add_handlers [("draft", debounce_handler)]
                    (observer_of [] false routing_handlers)))
     = Some debounce_handler.
Proof.
  pose proof (registry_one_rule_per_pattern (clock_of []) routing_config None
                world0 (mkWorld 2 []) routing_handlers
                [("draft", debounce_handler)]
                (observer_of [] false routing_handlers)
                eq_refl eq_refl) as [Hwf [_ [Hlast _]]].
  split; [exact Hwf|].
  apply (Hlast [] "draft" debounce_handler []); [reflexivity | simpl; tauto].
Defined.

(** ** The snapshot *)

Lemma string_app_assoc (a b c : string) : (a ++ b) ++ c = a ++ (b ++ c).
Proof. induction a as [|x a IH]; simpl; congruence. Qed.

Lemma node_induction (P : node -> Prop) :
  (forall t, P (File t)) ->
  (forall t entries, Forall (fun e => P (snd e)) entries -> P (Dir t entries)) ->
  (forall t, P (Locked t)) ->
  P Dangling ->
  forall n, P n.
Proof.
  intros HFile HDir HLocked HDangling. fix IH 1.
  intros [t|t entries|t|];
    [apply HFile | apply HDir | apply HLocked | apply HDangling].
  induction entries as [|[filename d] entries IHentries];
    constructor; [apply IH | exact IHentries].
Qed.

Section WalkFacts.

Variable recursive : bool.

Local Abbreviation through := (through recursive).
Local Abbreviation walk_adds := (walk_adds recursive).

Lemma reaches_through t entries p d :
  reaches recursive (Dir t entries) p d <-> through entries p d.
Proof.
  split.
  - inversion 1; subst; [now left|]. right. split; auto. eauto 6.
  - intros [Hin|[Hrec [filename [sub [q [Hin [Hreach ->]]]]]]].
    + now apply reaches_child.
    + eapply reaches_below; eauto.
Qed.

(* nothing is reached below an entry that the walk does not enter *)
Lemma reaches_isdir d q e : reaches recursive d q e -> isdir d = true.
Proof. now inversion 1. Qed.

Lemma query_entries_adds entries :
  Forall (fun e => walk_adds (snd e)) entries ->
  forall last_updates prefix last_updates',
    query_entries (query_last_updates recursive) recursive prefix entries last_updates
    = Ok last_updates' ->
    (forall k, In k (Dict.keys last_updates') <->
               In k (Dict.keys last_updates)
               \/ exists p d, k = prefix ++ p /\ through entries p d)
    /\ (forall k t, Dict.get k last_updates' = Some t ->
                    Dict.get k last_updates = Some t
                    \/ exists p d, k = prefix ++ p /\ through entries p d
                                   /\ getmtime d = Ok t).
Proof.
  induction 1 as [|[filename d] entries Hd _ IH]; intros last_updates prefix lu'.
  - simpl. intros [= <-]. split.
    + intros k. split; auto.
      intros [H|[p [d [_ [[]|[_ [? [? [? [[] _]]]]]]]]]]. exact H.
    + auto.
  - simpl in Hd. simpl query_entries.
    destruct (if recursive && isdir d
              then query_last_updates recursive d last_updates
                     (prefix ++ filename ++ "/")
              else Ok last_updates) as [lu1|x] eqn:Hrun1; [|discriminate].
    destruct (getmtime d) as [t|x] eqn:Ht; [|discriminate].
    intros Hrun.
    (* the recursive call, when there is one *)
    assert (Hsub :
      (forall k, In k (Dict.keys lu1) <->
                 In k (Dict.keys last_updates)
                 \/ (recursive = true /\
                     exists q e, k = prefix ++ filename ++ "/" ++ q
                                 /\ reaches recursive d q e))
      /\ (forall k t, Dict.get k lu1 = Some t ->
                      Dict.get k last_updates = Some t
                      \/ (recursive = true /\
                          exists q e, k = prefix ++ filename ++ "/" ++ q
                                      /\ reaches recursive d q e
                                      /\ getmtime e = Ok t))).
    { destruct (recursive && isdir d) eqn:Hgo.
      - apply andb_true_iff in Hgo. destruct Hgo as [Hrec Hisdir].
        destruct (Hd last_updates (prefix ++ filename ++ "/") lu1 Hrun1)
          as [Hkeys Hvals].
        split.
        + intros k. rewrite Hkeys. split.
          * intros [H|[q [e [-> Hreach]]]]; auto. right. split; auto.
            exists q, e. split; auto. now rewrite !string_app_assoc.
          * intros [H|[_ [q [e [-> Hreach]]]]]; auto. right.
            exists q, e. split; auto. now rewrite !string_app_assoc.
        + intros k t0 Hget.
          destruct (Hvals k t0 Hget) as [H|[q [e [-> [Hr Hm]]]]]; auto.
          right. split; auto. exists q, e. split; auto.
          now rewrite !string_app_assoc.
      - injection Hrun1 as <-. split.
        + intros k. split; auto. intros [H|[Hrec [q [e [_ Hreach]]]]]; auto.
          apply reaches_isdir in Hreach. rewrite Hrec, Hreach in Hgo.
          discriminate.
        + auto. }
    destruct Hsub as [Hkeys1 Hvals1].
    destruct (IH (Dict.set (prefix ++ filename) t lu1) prefix lu' Hrun)
      as [Hkeys Hvals].
    split.
    + intros k. rewrite Hkeys, dict_In_keys_set, Hkeys1. split.
      * intros [[->|[H|[Hrec [q [e [-> Hreach]]]]]]|[p [e [-> Hthrough]]]]; auto.
        -- right. exists filename, d. split; auto. left. now left.
        -- right. exists (filename ++ "/" ++ q), e. split; auto.
           right. split; auto. exists filename, d, q. simpl. auto.
        -- right. exists p, e. split; auto.
           destruct Hthrough as [Hin|[Hrec [f [sub [q [Hin [Hr ->]]]]]]].
           ++ left. now right.
           ++ right. split; auto. exists f, sub, q. simpl. auto.
      * intros [H|[p [e [-> Hthrough]]]]; auto.
        destruct Hthrough as [[[= -> ->]|Hin]|[Hrec [f [sub [q [[[= -> ->]|Hin] [Hr ->]]]]]]].
        -- auto.
        -- right. exists p, e. split; auto. now left.
        -- left. right. right. split; auto. eauto.
        -- right. exists (f ++ "/" ++ q), e. split; auto.
           right. split; auto. eauto 6.
    + intros k t0 Hget. destruct (Hvals k t0 Hget) as [Hset|[p [e [-> [Hthrough Hm]]]]].
      * destruct (String.eqb_spec (prefix ++ filename) k) as [<-|Hne].
        -- rewrite dict_get_set_same in Hset. injection Hset as <-.
           right. exists filename, d. split; auto. split; auto. left. now left.
        -- rewrite dict_get_set_other in Hset by auto.
           destruct (Hvals1 k t0 Hset) as [H|[Hrec [q [e [-> [Hr Hm]]]]]]; auto.
           right. exists (filename ++ "/" ++ q), e. split; auto. split; auto.
           right. split; auto. exists filename, d, q. simpl. auto.
      * right. exists p, e. split; auto. split; auto.
        destruct Hthrough as [Hin|[Hrec [f [sub [q [Hin [Hr ->]]]]]]].
        -- left. now right.
        -- right. split; auto. exists f, sub, q. simpl. auto.
Qed.

Lemma query_last_updates_adds n : walk_adds n.
Proof.
  induction n as [t|t entries IH|t|] using node_induction;
    intros last_updates prefix lu'; simpl; try discriminate.
  intros Hrun.
  destruct (query_entries_adds entries IH last_updates prefix lu' Hrun)
    as [Hkeys Hvals].
  split.
  - intros k. rewrite Hkeys. split;
      (intros [H|[p [d [-> Hr]]]]; auto; right; exists p, d; split; auto).
    + exact (proj2 (reaches_through t entries p d) Hr).
    + exact (proj1 (reaches_through t entries p d) Hr).
  - intros k t1 Hget. destruct (Hvals k t1 Hget) as [H|[p [d [-> [Hr Hm]]]]]; auto.
    right. exists p, d. split; auto. split; auto.
    exact (proj2 (reaches_through t entries p d) Hr).
Qed.

(* the walk returns exactly on the directories that it can get through *)
Lemma query_entries_readable prefix entries :
  Forall (fun e => forall lu prefix,
            readable recursive (snd e) = true <->
            exists lu', query_last_updates recursive (snd e) lu prefix = Ok lu')
    entries ->
  forall lu,
    forallb (fun e => let '(_, d) := e in
                      (if recursive && isdir d then readable recursive d else true)
                      && dated d) entries = true
    <-> exists lu',
          query_entries (query_last_updates recursive) recursive prefix entries lu
          = Ok lu'.
Proof.
  induction 1 as [|[filename d] entries Hd _ IH]; intros lu.
  - simpl. split; eauto.
  - simpl in Hd. simpl forallb. simpl query_entries. unfold dated.
    rewrite !andb_true_iff.
    destruct (recursive && isdir d).
    + specialize (Hd lu (prefix ++ filename ++ "/")).
      destruct (query_last_updates recursive d lu (prefix ++ filename ++ "/"))
        as [lu1|x].
      * destruct (getmtime d) as [t|x].
        -- rewrite (IH (Dict.set (prefix ++ filename) t lu1)).
           split; [tauto|]. intros Hex. split; auto. split; auto.
           apply Hd. eauto.
        -- split; [intros [[_ H] _]; discriminate | intros [? H]; discriminate].
      * split; [|intros [? H]; discriminate].
        intros [[Hr _] _]. apply Hd in Hr. destruct Hr as [? Hr]. discriminate.
    + destruct (getmtime d) as [t|x].
      * rewrite (IH (Dict.set (prefix ++ filename) t lu)). tauto.
      * split; [intros [[_ H] _]; discriminate | intros [? H]; discriminate].
Qed.

Lemma query_last_updates_readable n lu prefix :
  readable recursive n = true <->
  exists lu', query_last_updates recursive n lu prefix = Ok lu'.
Proof.
  revert lu prefix.
  induction n as [t|t entries IH|t|] using node_induction; intros lu prefix; simpl;
    try (split; [discriminate | intros [? H]; discriminate]).
  now apply query_entries_readable.
Qed.

End WalkFacts.




(** * Further properties of the monitor *)

(** ** The differ *)

Lemma dict_set_new {V : Type} (k : string) (v : V) (d : dict V) :
  ~ In k (Dict.keys d) -> Dict.set k v d = (d ++ [(k, v)])%list.
Proof.
  induction d as [|[k' v'] d IH]; simpl; auto.
  intros Hnotin. destruct (String.eqb_spec k k') as [->|]; [tauto|].
  rewrite IH; tauto.
Qed.

Lemma get_changes_old_wf items new_states changes changes' :
  get_changes_old items new_states changes = Ok changes' ->
  Dict.wf changes -> Dict.wf changes'.
Proof.
  revert changes. induction items as [|[k t] items IH]; simpl; intros changes.
  - now intros [= ->].
  - destruct (Dict.get k new_states) as [t'|]; [|discriminate].
    intros Hrun Hwf. apply (IH _ Hrun).
    destruct (t <? t'); [apply dict_wf_set|];
      destruct (negb (Dict.mem k new_states)); auto using dict_wf_set.
Qed.

Lemma get_changes_new_wf items old_states changes :
  Dict.wf changes -> Dict.wf (get_changes_new items old_states changes).
Proof.
  revert changes. induction items as [|[k t] items IH]; simpl; intros changes Hwf; auto.
  apply IH. destruct (negb (Dict.mem k old_states)); auto using dict_wf_set.
Qed.

(* a change set was returned: no path of the old snapshot was missing *)
Lemma get_changes_ok_no_deletion old_states new_states changes :
  get_changes old_states new_states = Ok changes ->
  forall p, In p (Dict.keys old_states) -> In p (Dict.keys new_states).
Proof.
  intros Hok p Hp. apply dict_mem_true_iff.
  destruct (Dict.mem p new_states) eqn:Em; auto.
  apply dict_mem_false_iff in Em. unfold get_changes in Hok.
  rewrite get_changes_old_raises in Hok; [discriminate | eauto].
Qed.

Lemma get_changes_old_appends items new_states changes :
  Dict.wf items ->
  (forall p, In p (Dict.keys items) -> In p (Dict.keys new_states)) ->
  (forall p, In p (Dict.keys items) -> ~ In p (Dict.keys changes)) ->
  get_changes_old items new_states changes
  = Ok (changes ++ updated items new_states)%list.
Proof.
  revert changes. induction items as [|[k t] items IH]; intros changes Hwf Hsub Hfresh.
  - simpl. now rewrite app_nil_r.
  - inversion Hwf as [|? ? Hnotin Hwf']; subst.
    assert (Hk : Dict.mem k new_states = true).
    { apply dict_mem_true_iff, Hsub. now left. }
    simpl. rewrite Hk. simpl. unfold Dict.mem in Hk.
    destruct (Dict.get k new_states) as [t'|]; [|discriminate].
    rewrite IH; auto.
    + destruct (t <? t'); simpl; auto.
      rewrite dict_set_new by (apply Hfresh; now left).
      now rewrite <- app_assoc.
    + intros p Hp. apply Hsub. now right.
    + intros p Hp. destruct (t <? t'); [|apply Hfresh; now right].
      rewrite dict_In_keys_set. intros [->|Hin]; [contradiction|].
      revert Hin. apply Hfresh. now right.
Qed.

Lemma get_changes_new_appends items old_states changes :
  Dict.wf items ->
  (forall p, In p (Dict.keys items) -> Dict.mem p old_states = false ->
             ~ In p (Dict.keys changes)) ->
  get_changes_new items old_states changes
  = (changes ++ created old_states items)%list.
Proof.
  revert changes. induction items as [|[k t] items IH]; intros changes Hwf Hfresh.
  - simpl. now rewrite app_nil_r.
  - inversion Hwf as [|? ? Hnotin Hwf']; subst.
    simpl. destruct (Dict.mem k old_states) eqn:Em; simpl.
    + apply IH; auto. intros p Hp. apply Hfresh. now right.
    + rewrite IH; auto.
      * rewrite dict_set_new by (apply Hfresh; [now left | auto]).
        now rewrite <- app_assoc.
      * intros p Hp Hm. rewrite dict_In_keys_set. intros [->|Hin]; [contradiction|].
        revert Hin. apply Hfresh; auto. now right.
Qed.

Lemma updated_keys old_states new_states p :
  In p (Dict.keys (updated old_states new_states)) -> In p (Dict.keys old_states).
Proof.
  unfold updated, Dict.keys. rewrite in_map_iff.
  intros [[q a] [<- Hin]]. apply in_flat_map in Hin.
  destruct Hin as [[k t] [Hin Hq]].
  destruct (Dict.get k new_states) as [t'|]; [|destruct Hq].
  destruct (t <? t'); [|destruct Hq]. destruct Hq as [[= <- _]|[]].
  simpl. exact (dict_In_keys k t old_states Hin).
Qed.

(** X1: when no path of the old snapshot is missing from the new one,
    the differ returns a change set that holds one record per path at
    most: UPDATE for a shared path whose timestamp in new is strictly
    greater, CREATE for a path of new that old does not have, and no
    record for any other path. *)
Theorem diff_records_without_deletion :
  forall old_states new_states : Snapshot,
    Dict.wf old_states ->
    (forall p, In p (Dict.keys old_states) -> In p (Dict.keys new_states)) ->
    exists changes,
      get_changes old_states new_states = Ok changes
      /\ Dict.wf changes
      /\ forall p,
           Dict.get p changes =
           match Dict.get p old_states, Dict.get p new_states with
           | Some t, Some t' => if t <? t' then Some "UPDATE" else None
           | None, Some _ => Some "CREATE"
           | _, None => None
           end.
Proof.
  intros old_states new_states Hwf Hsub.
  destruct (get_changes_without_deletion old_states new_states Hwf Hsub)
    as [changes [Hrun Hget]].
  exists changes. split; auto. split; auto.
  unfold get_changes in Hrun.
  destruct (get_changes_old old_states new_states []) as [c|e] eqn:Eold;
    [|discriminate].
  injection Hrun as <-. apply get_changes_new_wf.
  eapply get_changes_old_wf; eauto. constructor.
Qed.

Lemma diff_records_without_deletion_witness :
  exists changes,
    get_changes [("a", 1); ("b", 2)] [("b", 2); ("a", 4); ("c", 0)] = Ok changes
    /\ Dict.get "a" changes = Some "UPDATE"
    /\ Dict.get "b" changes = None
    /\ Dict.get "c" changes = Some "CREATE".
Proof.
  destruct (diff_records_without_deletion
              [("a", 1); ("b", 2)] [("b", 2); ("a", 4); ("c", 0)])
    as [changes [Hrun [_ Hget]]].
  - repeat constructor; simpl; intuition discriminate.
  - simpl. tauto.
  - exists changes. split; [exact Hrun|].
    rewrite !Hget. repeat split; reflexivity.
Defined.

(** X2: the differ fails only by KeyError, and it does so exactly when
    some path of the old snapshot is missing from the new one. *)
Theorem diff_raises_exactly_on_deletion :
  forall (old_states new_states : Snapshot) (e : exn),
    Dict.wf old_states ->
    (get_changes old_states new_states = Raise e ->
     e = KeyError
     /\ exists p, In p (Dict.keys old_states) /\ ~ In p (Dict.keys new_states))
    /\ ((exists p, In p (Dict.keys old_states) /\ ~ In p (Dict.keys new_states)) ->
        get_changes old_states new_states = Raise KeyError).
Proof.
  intros old_states new_states e Hwf. split.
  - intros Hraise.
    assert (He : e = KeyError).
    { unfold get_changes in Hraise.
      destruct (get_changes_old old_states new_states []) as [c|e'] eqn:Eold;
        [discriminate|].
      injection Hraise as <-. clear Hwf. revert Eold. generalize (@nil (string * string)).
      induction old_states as [|[k t] items IH]; simpl; intros c; [discriminate|].
      destruct (Dict.get k new_states); [apply IH | now intros [= <-]]. }
    subst e. split; auto. now apply get_changes_raises_iff.
  - intros Hmissing. now apply get_changes_raises_iff.
Qed.

Lemma diff_raises_exactly_on_deletion_witness :
  get_changes [("a", 1); ("b", 2)] [("a", 1)] = Raise KeyError.
Proof.
  apply (diff_raises_exactly_on_deletion [("a", 1); ("b", 2)] [("a", 1)] KeyError).
  - repeat constructor; simpl; intuition discriminate.
  - exists "b". simpl. split; [auto | intuition discriminate].
Defined.

(** X3: a change set that the differ returns never holds a DELETE
    record: every record is UPDATE or CREATE and names a path of the new
    snapshot. *)
Theorem diff_records_name_new_paths :
  forall (old_states new_states : Snapshot) (changes : dict string)
         (p action : string),
    Dict.wf old_states ->
    get_changes old_states new_states = Ok changes ->
    Dict.get p changes = Some action ->
    (action = "UPDATE" \/ action = "CREATE")
    /\ action <> "DELETE"
    /\ In p (Dict.keys new_states).
Proof.
  intros old_states new_states changes p action Hwf Hok Hget.
  destruct (get_changes_without_deletion old_states new_states Hwf
              (get_changes_ok_no_deletion _ _ _ Hok)) as [c [Hc Hchar]].
  rewrite Hok in Hc. injection Hc as <-. rewrite Hchar in Hget.
  destruct (Dict.get p old_states) as [t|],
           (Dict.get p new_states) as [t'|] eqn:En; try discriminate.
  - destruct (t <? t'); [|discriminate]. injection Hget as <-.
    repeat split; auto; [discriminate|].
    apply dict_mem_true_iff. unfold Dict.mem. now rewrite En.
  - injection Hget as <-. repeat split; auto; [discriminate|].
    apply dict_mem_true_iff. unfold Dict.mem. now rewrite En.
Qed.

Lemma diff_records_name_new_paths_witness :
  ("CREATE" = "UPDATE" \/ "CREATE" = "CREATE")
  /\ "CREATE" <> "DELETE"
  /\ In "c" (Dict.keys [("a", 4); ("c", 0)]).
Proof.
  apply (diff_records_name_new_paths [("a", 1)] [("a", 4); ("c", 0)]
           [("a", "UPDATE"); ("c", "CREATE")] "c" "CREATE").
  - repeat constructor; simpl; tauto.
  - reflexivity.
  - reflexivity.
Defined.

(** X4: the diff of a snapshot with itself is empty. *)
Theorem diff_with_itself_is_empty :
  forall states : Snapshot,
    Dict.wf states -> get_changes states states = Ok [].
Proof.
  intros states Hwf.
  destruct (get_changes_without_deletion states states Hwf (fun _ H => H))
    as [changes [Hrun Hget]].
  rewrite Hrun. f_equal. destruct changes as [|[k a] changes]; auto.
  specialize (Hget k). simpl in Hget. rewrite String.eqb_refl in Hget.
  destruct (Dict.get k states) as [t|]; [|discriminate].
  rewrite Z.ltb_irrefl in Hget. discriminate.
Qed.

Lemma diff_with_itself_is_empty_witness :
  get_changes [("a", 1); ("b", 2)] [("a", 1); ("b", 2)] = Ok [].
Proof.
  apply (diff_with_itself_is_empty [("a", 1); ("b", 2)]).
  repeat constructor; simpl; intuition discriminate.
Defined.

(** X5: the order of the change set, which is the order of dispatch:
    when no path is deleted the differ returns first the UPDATE records,
    in the order of the old snapshot, then the CREATE records, in the
    order of the new snapshot. *)
Theorem diff_order :
  forall old_states new_states : Snapshot,
    Dict.wf old_states ->
    Dict.wf new_states ->
    (forall p, In p (Dict.keys old_states) -> In p (Dict.keys new_states)) ->
    get_changes old_states new_states
    = Ok (updated old_states new_states ++ created old_states new_states)%list.
Proof.
  intros old_states new_states Hold Hnew Hsub. unfold get_changes.
  rewrite get_changes_old_appends; auto. simpl.
  rewrite get_changes_new_appends; auto.
  intros p _ Hm Hin. apply updated_keys in Hin.
  apply dict_mem_true_iff in Hin. congruence.
Qed.

Lemma diff_order_witness :
  get_changes [("a", 1); ("b", 2)] [("c", 0); ("b", 3); ("a", 4)]
  = Ok [("a", "UPDATE"); ("b", "UPDATE"); ("c", "CREATE")].
Proof.
  apply (diff_order [("a", 1); ("b", 2)] [("c", 0); ("b", 3); ("a", 4)]).
  - repeat constructor; simpl; intuition discriminate.
  - repeat constructor; simpl; intuition discriminate.
  - simpl. tauto.
Defined.

(** ** Dispatch and the rules *)

Lemma for_items_outcome {V : Type} (body : string -> M (V * World) unit)
    (P : result unit -> Prop) (d : dict V) (w : World) :
  P (Ok tt) ->
  (forall k v w', In (k, v) d -> fst (body k (v, w')) = Ok tt \/ P (fst (body k (v, w')))) ->
  P (fst (for_items body d w)).
Proof.
  intros Hok. revert w. induction d as [|[k v] d IH]; intros w Hbody; auto.
  simpl. destruct (Hbody k v w (or_introl eq_refl)) as [Hr|Hr];
    destruct (body k (v, w)) as [[[]|e] [v' w']]; simpl in Hr; try discriminate; auto.
  - specialize (IH w' (fun k0 v0 w0 H => Hbody k0 v0 w0 (or_intror H))).
    now destruct (for_items body d w') as [r [d'' w'']].
  - specialize (IH w' (fun k0 v0 w0 H => Hbody k0 v0 w0 (or_intror H))).
    now destruct (for_items body d w') as [r [d'' w'']].
Qed.

(* the only ways out of dispatch *)
Lemma process_changes_outcome
    (time_time : nat -> Q)
    (subprocess_run : string -> string -> result CompletedProcess)
    (re_search : string -> string -> option bool)
    (changes : dict string) (s : Observer * World) :
  fst (process_changes time_time subprocess_run re_search changes s) = Ok tt
  \/ fst (process_changes time_time subprocess_run re_search changes s)
     = Raise TypeError
  \/ fst (process_changes time_time subprocess_run re_search changes s)
     = Raise re_error.
Proof.
  pose (P := fun r : result unit =>
               r = Ok tt \/ r = Raise TypeError \/ r = Raise re_error).
  change (P (fst (process_changes time_time subprocess_run re_search changes s))).
  unfold process_changes. revert s.
  induction changes as [|[file_path action] changes IH]; intros s; [now left|].
  simpl. unfold bind at 1.
  pose proof (for_items_no_effect
                (dispatch_to time_time subprocess_run re_search file_path action)
                (handlers (fst s)) (snd s)
                (dispatch_to_no_effect time_time subprocess_run re_search
                   file_path action)) as Hsame.
  pose proof (for_items_outcome
                (dispatch_to time_time subprocess_run re_search file_path action)
                P (handlers (fst s)) (snd s) (or_introl eq_refl)) as Hout.
  destruct (for_items _ (handlers (fst s)) (snd s)) as [r [hs w]].
  simpl in Hsame, Hout. injection Hsame as -> ->.
  assert (Hr : P r).
  { apply Hout. intros k v w' _. right. unfold P, dispatch_to.
    destruct (re_search k file_path) as [[|]|]; simpl; auto.
    unfold bind, get_state. simpl.
    destruct (py_in (VStr action) (actions v)); simpl; auto. }
  assert (Hs : (set_handlers (handlers (fst s)) (fst s), snd s) = s).
  { destruct s as [[] ?]; reflexivity. }
  rewrite Hs. destruct Hr as [-> | [-> | ->]]; [apply IH | right; now left | right; now right].
Qed.


Lemma py_in_str_enum_only s actions :
  enum_only actions -> py_in (VStr s) actions = false.
Proof.
  intros Henum. unfold py_in.
  destruct (existsb (pyval_eqb (VStr s)) actions) eqn:E; auto.
  apply existsb_exists in E. destruct E as [v [Hin Heq]].
  destruct (Henum v Hin) as [a ->]. discriminate.
Qed.

Lemma read_actions_enum_only names actions actions' :
  read_actions names actions = Ok actions' ->
  enum_only actions -> enum_only actions'.
Proof.
  revert actions. induction names as [|name names IH]; simpl; intros actions.
  - now intros [= ->].
  - destruct (Action_of_name name) as [a|e]; [|discriminate].
    intros Hrun Henum. apply (IH _ Hrun).
    intros v Hin. apply in_app_iff in Hin. destruct Hin as [Hin|[<-|[]]]; eauto.
Qed.

Lemma dict_set_Forall {V : Type} (P : V -> Prop) k v (d : dict V) :
  P v -> Forall (fun item => P (snd item)) d ->
  Forall (fun item => P (snd item)) (Dict.set k v d).
Proof.
  intros Hv. induction 1 as [|[k' v'] d Hhd Htl IH]; simpl.
  - constructor; auto.
  - destruct (String.eqb k k'); constructor; auto.
Qed.

Lemma read_handlers_loop_enum_only time_time configuration tb hs w hs' w' :
  read_handlers_loop time_time configuration tb hs w = (Ok hs', w') ->
  Forall (fun item => enum_only (actions (snd item))) hs ->
  Forall (fun item => enum_only (actions (snd item))) hs'.
Proof.
  revert hs w. induction configuration as [|hd configuration IH]; intros hs w.
  - simpl. unfold ret. now intros [= <- <-].
  - simpl. run_monad. unfold ChangeHandler_init. run_monad.
    destruct (read_actions (hd_actions hd) []) as [acts|e] eqn:Eacts; simpl;
      [|discriminate].
    intros Hrun Hall. apply (IH _ _ Hrun).
    apply (dict_set_Forall (fun h => enum_only (actions h))); auto. simpl.
    eapply read_actions_enum_only; eauto. intros v [].
Qed.

Lemma for_items_returns {V : Type} (body : string -> M (V * World) unit)
    (d : dict V) (w : World) :
  (forall k v w', In (k, v) d -> body k (v, w') = (Ok tt, (v, w'))) ->
  for_items body d w = (Ok tt, (d, w)).
Proof.
  revert w. induction d as [|[k v] d IH]; intros w Hbody; auto.
  simpl. rewrite (Hbody k v w (or_introl eq_refl)).
  rewrite IH; auto. intros k0 v0 w0 H. apply Hbody. now right.
Qed.

(** X7: rules loaded by read_handlers never fire.  Their action lists
    hold enum members and the differ reports actions as strings, so for
    every configuration and every change set dispatch returns without
    calling any handler, provided the patterns of the rules compile. *)
Theorem loaded_rules_never_fire :
  forall (time_time : nat -> Q)
         (subprocess_run : string -> string -> result CompletedProcess)
         (re_search : string -> string -> option bool)
         (configuration : list handler_data) (tb : option nat) (w0 w1 w : World)
         (hs : dict ChangeHandler) (obs : Observer) (changes : dict string),
    read_handlers time_time (Some configuration) tb w0 = (Ok hs, w1) ->
    handlers obs = hs ->
    (forall pattern file_path,
        In pattern (Dict.keys hs) -> re_search pattern file_path <> None) ->
    process_changes time_time subprocess_run re_search changes (obs, w)
    = (Ok tt, (obs, w)).
Proof.
  intros time_time subprocess_run re_search configuration tb w0 w1 w hs obs
         changes Hread Hobs Hcompile.
  assert (Hall : Forall (fun item => enum_only (actions (snd item))) hs).
  { eapply read_handlers_loop_enum_only; [exact Hread | constructor]. }
  unfold process_changes.
  induction changes as [|[file_path action] changes IH]; auto.
  simpl. unfold bind at 1. simpl. rewrite Hobs.
  rewrite for_items_returns.
  - assert (Hs : set_handlers hs obs = obs) by (subst hs; now destruct obs).
    rewrite Hs. exact IH.
  - intros k v w' Hin. unfold dispatch_to.
    specialize (Hcompile k file_path (dict_In_keys k v hs Hin)).
    destruct (re_search k file_path) as [[|]|]; auto; [|congruence].
    unfold bind, get_state. simpl.
    rewrite Forall_forall in Hall. specialize (Hall (k, v) Hin). simpl in Hall.
    now rewrite py_in_str_enum_only.
Qed.

Lemma loaded_rules_never_fire_witness :
  process_changes (clock_of []) run_ok ReFragment.search
    [("draft.pdf", "CREATE"); ("final.pdf", "UPDATE")]
    (observer_of [] true routing_handlers, world0)
  = (Ok tt, (observer_of [] true routing_handlers, world0)).
Proof.
  apply (loaded_rules_never_fire (clock_of []) run_ok ReFragment.search
           routing_config None world0 (mkWorld 2 []) world0 routing_handlers).
  - reflexivity.
  - reflexivity.
  - intros pattern file_path [<-|[<-|[]]]; simpl;
      destruct (ReFragment.match_from _ _ _); discriminate.
Defined.

(** ** Loading the rules *)

Lemma Action_of_name_ok name a :
  Action_of_name name = Ok a <-> name = Action_name a.
Proof.
  unfold Action_of_name.
  destruct (String.eqb_spec name "CREATE") as [->|H1];
    [destruct a; simpl; split; intros H; (reflexivity || discriminate)|].
  destruct (String.eqb_spec name "UPDATE") as [->|H2];
    [destruct a; simpl; split; intros H; (reflexivity || discriminate)|].
  destruct (String.eqb_spec name "DELETE") as [->|H3];
    [destruct a; simpl; split; intros H; (reflexivity || discriminate)|].
  destruct a; simpl; split; intros H; (discriminate || contradiction).
Qed.

(** X8: the names of the actions and the enum members correspond one to
    one: Action[a.name] is a, Action[name] is a member only when name is
    that member's name, and any other name, a lower-case one included, is
    a KeyError. *)
Theorem Action_name_round_trip :
  forall (a : Action) (name : string),
    Action_of_name (Action_name a) = Ok a
    /\ (Action_of_name name = Ok a -> name = Action_name a)
    /\ (In name Action_names \/ Action_of_name name = Raise KeyError)
    /\ Action_of_name "create" = Raise KeyError.
Proof.
  intros a name. split; [now apply Action_of_name_ok|].
  split; [apply Action_of_name_ok|]. split; [|reflexivity].
  unfold Action_of_name, Action_names.
  destruct (String.eqb_spec name "CREATE") as [->|H1]; [left; simpl; auto|].
  destruct (String.eqb_spec name "UPDATE") as [->|H2]; [left; simpl; auto|].
  destruct (String.eqb_spec name "DELETE") as [->|H3]; [left; simpl; auto|].
  now right.
Qed.

Lemma Action_round_trip_witness :
  "UPDATE" = Action_name UPDATE.
Proof.
  apply (proj1 (proj2 (Action_name_round_trip UPDATE "UPDATE"))). reflexivity.
Defined.

Lemma read_actions_known names actions :
  (forall name, In name names -> In name Action_names) ->
  exists actions', read_actions names actions = Ok actions'.
Proof.
  revert actions. induction names as [|name names IH]; intros actions Hknown.
  - simpl. eauto.
  - simpl. assert (Hname : In name Action_names) by (apply Hknown; now left).
    assert (Hok : exists a, Action_of_name name = Ok a).
    { destruct Hname as [<-|[<-|[<-|[]]]];
        [exists CREATE | exists UPDATE | exists DELETE]; reflexivity. }
    destruct Hok as [a ->]. apply IH. intros n Hn. apply Hknown. now right.
Qed.

Lemma read_actions_unknown names actions name :
  In name names -> ~ In name Action_names ->
  read_actions names actions = Raise KeyError.
Proof.
  revert actions. induction names as [|n names IH]; intros actions Hin Hbad.
  - destruct Hin.
  - simpl. destruct (Action_of_name n) as [a|e] eqn:E.
    + destruct Hin as [->|Hin]; [|now apply IH].
      apply Action_of_name_ok in E. subst name. exfalso. apply Hbad.
      destruct a; simpl; auto.
    + revert E. unfold Action_of_name.
      repeat match goal with
             | |- context [String.eqb ?x ?y] => destruct (String.eqb x y)
             end; congruence.
Qed.

Lemma read_handlers_loop_known time_time configuration tb hs w :
  (forall hd name, In hd configuration -> In name (hd_actions hd) ->
                   In name Action_names) ->
  exists hs',
    read_handlers_loop time_time configuration tb hs w
    = (Ok hs', mkWorld (List.length configuration + reads w) (trace w))
    /\ forall p, In p (Dict.keys hs') <->
                 In p (Dict.keys hs) \/ In p (map hd_pattern configuration).
Proof.
  revert hs w. induction configuration as [|hd configuration IH]; intros hs w Hknown.
  - exists hs. simpl. unfold ret. destruct w. split; auto. intros p. tauto.
  - simpl. run_monad. unfold ChangeHandler_init. run_monad.
    destruct (read_actions_known (hd_actions hd) [])
      as [acts ->].
    { intros name. apply Hknown. now left. }
    simpl.
    destruct (IH (Dict.set (hd_pattern hd)
                    (mkChangeHandler acts tb None (time_time (reads w)) (hd_script hd))
                    hs)
                 (mkWorld (S (reads w)) (trace w)))
      as [hs' [Hrun Hkeys]].
    { intros hd' name Hin. apply Hknown. now right. }
    exists hs'. split.
    + rewrite Hrun. simpl. now rewrite Nat.add_succ_r.
    + intros p. rewrite Hkeys, dict_In_keys_set. intuition.
Qed.

Lemma read_handlers_loop_unknown time_time configuration tb hs w hd name :
  In hd configuration -> In name (hd_actions hd) -> ~ In name Action_names ->
  exists w',
    read_handlers_loop time_time configuration tb hs w = (Raise KeyError, w')
    /\ trace w' = trace w.
Proof.
  revert hs w. induction configuration as [|hd0 configuration IH];
    intros hs w Hin Hname Hbad; [destruct Hin|].
  simpl. run_monad. unfold ChangeHandler_init. run_monad.
  destruct (read_actions (hd_actions hd0) []) as [acts|e] eqn:Eacts; simpl.
  - destruct Hin as [->|Hin].
    + rewrite (read_actions_unknown _ _ _ Hname Hbad) in Eacts. discriminate.
    + apply (IH _ (mkWorld (S (reads w)) (trace w)) Hin Hname Hbad).
  - exists w. split; auto.
    assert (e = KeyError); [|congruence].
    clear -Eacts. revert Eacts. generalize (@nil pyval).
    induction (hd_actions hd0) as [|n names IHn]; simpl; intros l; [discriminate|].
    destruct (Action_of_name n) as [a|e'] eqn:E; [apply IHn|].
    intros [= <-]. revert E. unfold Action_of_name.
    repeat match goal with
           | |- context [String.eqb ?x ?y] => destruct (String.eqb x y)
           end; congruence.
Qed.

(** X9: read_handlers succeeds exactly on the configurations in which
    every action name is CREATE, UPDATE or DELETE.  It then reads the
    clock once per handler definition, writes nothing, and returns a
    registry whose patterns are those of the configuration; an unknown
    action name anywhere makes it raise KeyError, and no configuration
    file makes it raise the OS error, in both cases with nothing written. *)
Theorem read_handlers_outcome :
  forall (time_time : nat -> Q) (configuration : list handler_data)
         (tb : option nat) (w : World),
    ((forall hd name, In hd configuration -> In name (hd_actions hd) ->
                      In name Action_names) ->
     exists hs,
       read_handlers time_time (Some configuration) tb w
       = (Ok hs, mkWorld (List.length configuration + reads w) (trace w))
       /\ Dict.wf hs
       /\ forall p, In p (Dict.keys hs) <-> In p (map hd_pattern configuration))
    /\ (forall hd name,
          In hd configuration -> In name (hd_actions hd) ->
          ~ In name Action_names ->
          exists w',
            read_handlers time_time (Some configuration) tb w = (Raise KeyError, w')
            /\ trace w' = trace w)
    /\ read_handlers time_time None tb w = (Raise OSError, w).
Proof.
  intros time_time configuration tb w. split; [|split].
  - intros Hknown.
    destruct (read_handlers_loop_known time_time configuration tb [] w Hknown)
      as [hs [Hrun Hkeys]].
    exists hs. split; [exact Hrun|]. split.
    + eapply read_handlers_loop_wf; [exact Hrun | constructor].
    + intros p. rewrite Hkeys. simpl. tauto.
  - intros hd name. apply read_handlers_loop_unknown.
  - reflexivity.
Qed.

Lemma read_handlers_outcome_witness :
  exists hs,
    read_handlers (clock_of []) (Some routing_config) None world0
    = (Ok hs, mkWorld (List.length routing_config + reads world0) (trace world0))
    /\ Dict.wf hs
    /\ forall p, In p (Dict.keys hs) <-> In p (map hd_pattern routing_config).
Proof.
  apply (proj1 (read_handlers_outcome (clock_of []) routing_config None world0)).
  intros hd name [<-|[<-|[]]]; simpl; intuition.
Defined.

(** ** More on the snapshot *)

Lemma query_entries_flat walk prefix entries lu :
  match first_error entries with
  | Some e => query_entries walk false prefix entries lu = Raise e
  | None => exists lu', query_entries walk false prefix entries lu = Ok lu'
  end.
Proof.
  revert lu. induction entries as [|[filename d] entries IH]; intros lu; simpl.
  - eauto.
  - destruct (getmtime d) as [t|e]; [apply IH | reflexivity].
Qed.

(** X11: in a non-recursive walk only the root is listed, so a
    subdirectory that cannot be listed does no harm.  The capture of a
    directory fails exactly when some direct entry has no modification
    time to give (its stat fails, or its time does not convert to a
    datetime), and it then raises the exception of the first such entry in
    listing order; it raises OSError for a root that is missing or is not
    a directory. *)
Theorem capture_non_recursive_fails_on_stat :
  forall (mtime : stamp) (entries : list (string * node)),
    (forall e, capture false (Some (Dir mtime entries)) = Raise e
               <-> first_error entries = Some e)
    /\ ((exists snapshot, capture false (Some (Dir mtime entries)) = Ok snapshot)
        <-> first_error entries = None)
    /\ capture false None = Raise OSError
    /\ (forall t, capture false (Some (File t)) = Raise OSError).
Proof.
  intros mtime entries.
  pose proof (query_entries_flat (query_last_updates false) "" entries []) as Hflat.
  split; [|split; [|split]]; try reflexivity.
  - intros e. simpl. destruct (first_error entries) as [e'|].
    + rewrite Hflat. split; congruence.
    + destruct Hflat as [lu' ->]. split; discriminate.
  - simpl. destruct (first_error entries) as [e'|].
    + rewrite Hflat. split; [intros [? H]|]; discriminate.
    + split; auto.
Qed.

Lemma capture_non_recursive_fails_on_stat_witness :
  exists snapshot,
    capture false (Some (Dir 0 [("locked", Locked 5); ("a.txt", File 3)]))
    = Ok snapshot.
Proof.
  apply (proj2 (proj1 (proj2 (capture_non_recursive_fails_on_stat 0
                                [("locked", Locked 5); ("a.txt", File 3)])))).
  reflexivity.
Defined.

Lemma query_entries_flat_listing walk entries lu :
  NoDup (map fst entries) ->
  first_error entries = None ->
  (forall filename, In filename (map fst entries) -> ~ In filename (Dict.keys lu)) ->
  query_entries walk false "" entries lu = Ok (lu ++ map listed entries)%list.
Proof.
  revert lu. induction entries as [|[filename d] entries IH];
    intros lu Hnodup Hclean Hfresh.
  - simpl. now rewrite app_nil_r.
  - inversion Hnodup as [|? ? Hnotin Hnodup']; subst.
    simpl in Hclean. simpl query_entries.
    destruct (getmtime d) as [t|e] eqn:Ht; [|discriminate].
    rewrite IH; auto.
    + rewrite dict_set_new by (apply Hfresh; now left).
      rewrite <- app_assoc. unfold listed at 2. simpl. now rewrite Ht.
    + intros f Hf. rewrite dict_In_keys_set. intros [->|Hin]; [contradiction|].
      revert Hin. apply Hfresh. now right.
Qed.

(** X12: a non-recursive snapshot lists the directory as os.listdir
    gives it: when the names are distinct and every entry has a
    modification time to give, the snapshot holds, in listing order, each
    name with the modification time of its entry, files and
    subdirectories alike. *)
Theorem capture_non_recursive_in_listing_order :
  forall (mtime : stamp) (entries : list (string * node)),
    NoDup (map fst entries) ->
    first_error entries = None ->
    capture false (Some (Dir mtime entries)) = Ok (map listed entries).
Proof.
  intros mtime entries Hnodup Hclean. simpl.
  now rewrite query_entries_flat_listing.
Qed.

Lemma capture_non_recursive_in_listing_order_witness :
  capture false (Some tree_d) = Ok [("d", 7); ("g", 4)].
Proof.
  apply (capture_non_recursive_in_listing_order 9
           [("d", Dir 7 [("f", File 3)]); ("g", File 4)]).
  - repeat constructor; simpl; intuition discriminate.
  - reflexivity.
Defined.

Lemma reaches_false_child mtime entries p d :
  reaches false (Dir mtime entries) p d <-> In (p, d) entries.
Proof.
  split; [|apply reaches_child].
  inversion 1; subst; [auto | discriminate].
Qed.

(* what a recursive walk gets through, a non-recursive walk gets through *)
Lemma readable_flat mtime entries :
  readable true (Dir mtime entries) = true ->
  readable false (Dir mtime entries) = true.
Proof.
  simpl. rewrite !forallb_forall. intros Hall [filename d] Hin.
  specialize (Hall (filename, d) Hin). simpl in Hall.
  apply andb_true_iff in Hall. now destruct Hall as [_ ->].
Qed.



(** ** More on the polling loop *)

Section LoopMore.

Variable time_time : nat -> Q.
Variable subprocess_run : string -> string -> result CompletedProcess.
Variable re_search : string -> string -> option bool.

Local Abbreviation poll_turn := (poll time_time subprocess_run re_search).
Local Abbreviation loop := (__process__ time_time subprocess_run re_search).

(* a turn in which the differ finds nothing *)
Lemma poll_quiet root obs w new_updates :
  capture (recursive obs) root = Ok new_updates ->
  get_changes (last_updates obs) new_updates = Ok [] ->
  poll_turn root (obs, w) = (Ok tt, (obs, slept w)).
Proof.
  intros Hcap Hdiff.
  now rewrite (poll_after_diff _ _ _ _ _ _ _ _ Hcap Hdiff).
Qed.

Lemma loop_quiet_prefix quiet rest obs w :
  running obs = true ->
  Forall (fun turn =>
            stop_requested turn = false
            /\ exists new_updates,
                 capture (recursive obs) (root turn) = Ok new_updates
                 /\ get_changes (last_updates obs) new_updates = Ok []) quiet ->
  loop (quiet ++ rest) (obs, w) = loop rest (obs, slept_n (List.length quiet) w).
Proof.
  intros Hrun Hquiet. revert w.
  induction Hquiet as [|turn quiet [Hstop [new_updates [Hcap Hdiff]]] _ IH];
    intros w; auto.
  rewrite <- app_comm_cons.
  rewrite (loop_continues _ _ _ turn (quiet ++ rest) obs w (obs, slept w));
    [apply IH | exact Hrun | exact Hstop | eapply poll_quiet; eauto].
Qed.

End LoopMore.

(** X14: while nothing changes the loop only sleeps.  Over any number
    of turns in which the differ finds no change (the captured snapshot is
    the baseline, or differs from it by timestamps that went back), the
    observer stays as it was and the only effects are the sleeps, one per
    turn; the loop is then still running, and a stop request met at the
    next test makes it exit there, with the flag cleared and without a
    further sleep or capture. *)
Theorem quiet_loop_only_sleeps :
  forall (time_time : nat -> Q)
         (subprocess_run : string -> string -> result CompletedProcess)
         (re_search : string -> string -> option bool)
         (quiet rest : list Turn) (last : Turn) (obs : Observer) (w : World),
    running obs = true ->
    Forall (fun turn =>
              stop_requested turn = false
              /\ exists new_updates,
                   capture (recursive obs) (root turn) = Ok new_updates
                   /\ get_changes (last_updates obs) new_updates = Ok []) quiet ->
    __process__ time_time subprocess_run re_search quiet (obs, w)
    = (Ok Horizon, (obs, slept_n (List.length quiet) w))
    /\ (stop_requested last = true ->
        __process__ time_time subprocess_run re_search (quiet ++ last :: rest) (obs, w)
        = (Ok Exited, (set_running false obs, slept_n (List.length quiet) w))).
Proof.
  intros time_time subprocess_run re_search quiet rest last obs w Hrun Hquiet.
  split.
  - rewrite <- (app_nil_r quiet) at 1.
    now rewrite (loop_quiet_prefix _ _ _ quiet [] obs w Hrun Hquiet).
  - intros Hstop.
    rewrite (loop_quiet_prefix _ _ _ quiet (last :: rest) obs w Hrun Hquiet).
    simpl. rewrite Hstop. reflexivity.
Qed.

Lemma quiet_loop_only_sleeps_witness :
  __process__ (clock_of []) run_ok ReFragment.search
    [mkTurn false tree_a3; mkTurn false tree_a3]
    (observer_of [("a.txt", 3)] true routing_handlers, world0)
  = (Ok Horizon, (observer_of [("a.txt", 3)] true routing_handlers,
                  slept_n 2 world0)).
Proof.
  apply (quiet_loop_only_sleeps (clock_of []) run_ok ReFragment.search
           [mkTurn false tree_a3; mkTurn false tree_a3] [] (mkTurn true None)
           (observer_of [("a.txt", 3)] true routing_handlers) world0).
  - reflexivity.
  - repeat constructor; exists [("a.txt", 3)]; split; reflexivity.
Defined.

(** X15: deleting a watched path stops the watcher.  In a turn whose
    capture succeeds but lacks a path of the baseline, the differ's
    KeyError leaves the loop: the baseline is unchanged, nothing is printed
    or dispatched, and no later turn runs. *)
Theorem deletion_ends_loop :
  forall (time_time : nat -> Q)
         (subprocess_run : string -> string -> result CompletedProcess)
         (re_search : string -> string -> option bool)
         (turn : Turn) (turns : list Turn) (obs : Observer) (w : World)
         (new_updates : Snapshot) (p : string),
    running obs = true ->
    stop_requested turn = false ->
    capture (recursive obs) (root turn) = Ok new_updates ->
    In p (Dict.keys (last_updates obs)) ->
    ~ In p (Dict.keys new_updates) ->
    __process__ time_time subprocess_run re_search (turn :: turns) (obs, w)
    = (Raise KeyError, (obs, slept w)).
Proof.
  intros time_time subprocess_run re_search turn turns obs w new_updates p
         Hrun Hstop Hcap Hin Hout.
  apply loop_raises; auto. unfold poll. run_monad. rewrite Hcap. simpl.
  unfold get_changes. rewrite get_changes_old_raises; eauto.
Qed.

Lemma deletion_ends_loop_witness :
  __process__ (clock_of []) run_ok ReFragment.search
    [mkTurn false tree_a3; mkTurn false tree_a3]
    (observer_of [("a.txt", 3); ("b.txt", 3)] true routing_handlers, world0)
  = (Raise KeyError,
     (observer_of [("a.txt", 3); ("b.txt", 3)] true routing_handlers, slept world0)).
Proof.
  apply (deletion_ends_loop (clock_of []) run_ok ReFragment.search
           (mkTurn false tree_a3) [mkTurn false tree_a3]
           (observer_of [("a.txt", 3); ("b.txt", 3)] true routing_handlers)
           world0 [("a.txt", 3)] "b.txt").
  - reflexivity.
  - reflexivity.
  - reflexivity.
  - simpl. auto.
  - simpl. intuition discriminate.
Defined.



(** ** More on the handlers *)

(** X17: the debounce state is one per handler, not one per path: a
    trigger for another path always goes through and takes the place of
    the remembered path.  So for a handler that has just been triggered
    for P, a trigger for P' and then one for P again both call the command,
    whatever the clock reads, even within the same second. *)
Theorem alternating_paths_are_not_debounced :
  forall (time_time : nat -> Q)
         (subprocess_run : string -> string -> result CompletedProcess)
         (h : ChangeHandler) (P P' : string) (a : Action) (w : World),
    P <> P' ->
    last_file h = Some P ->
    exists r1 h1 w1 tail1 r2 h2 w2 tail2,
      process_update time_time subprocess_run P' (VAction a) (h, w) = (r1, (h1, w1))
      /\ trace w1 = (trace w ++ file_line h P' a :: EvRun (script h) P' :: tail1)%list
      /\ process_update time_time subprocess_run P (VAction a) (h1, w1) = (r2, (h2, w2))
      /\ trace w2 = (trace w1 ++ file_line h P a :: EvRun (script h) P :: tail2)%list
      /\ last_file h2 = Some P.
Proof.
  intros time_time subprocess_run h P P' a w Hne Hlast.
  assert (HQ : is_last_file P' h = false).
  { unfold is_last_file. rewrite Hlast.
    destruct (String.eqb_spec P' P); congruence. }
  destruct (process_update_fires time_time subprocess_run h P' a w 0
              (or_introl (conj HQ eq_refl)))
    as [r1 [w1 [tail1 [Hrun1 [_ Htrace1]]]]].
  set (h1 := set_last_update (time_time (0 + reads w)%nat) (set_last_file (Some P') h))
    in Hrun1.
  assert (HP : is_last_file P h1 = false).
  { unfold is_last_file. simpl. destruct (String.eqb_spec P P'); congruence. }
  destruct (process_update_fires time_time subprocess_run h1 P a w1 0
              (or_introl (conj HP eq_refl)))
    as [r2 [w2 [tail2 [Hrun2 [_ Htrace2]]]]].
  exists r1, h1, w1, tail1, r2. do 2 eexists. exists tail2.
  split; [exact Hrun1|]. split; [exact Htrace1|]. split; [exact Hrun2|].
  split; [exact Htrace2 | reflexivity].
Qed.

Lemma alternating_paths_are_not_debounced_witness :
  exists r1 h1 w1 tail1 r2 h2 w2 tail2,
    process_update (clock_of []) run_ok "b.pdf" (VAction UPDATE)
      (debounce_handler, world0) = (r1, (h1, w1))
    /\ trace w1 = (trace world0 ++ file_line debounce_handler "b.pdf" UPDATE
                     :: EvRun (script debounce_handler) "b.pdf" :: tail1)%list
    /\ process_update (clock_of []) run_ok "a.pdf" (VAction UPDATE) (h1, w1)
       = (r2, (h2, w2))
    /\ trace w2 = (trace w1 ++ file_line debounce_handler "a.pdf" UPDATE
                     :: EvRun (script debounce_handler) "a.pdf" :: tail2)%list
    /\ last_file h2 = Some "a.pdf".
Proof.
  apply (alternating_paths_are_not_debounced (clock_of []) run_ok
           debounce_handler "a.pdf" "b.pdf" UPDATE world0).
  - discriminate.
  - reflexivity.
Defined.

(** X18: when subprocess.run returns (the command was launched, has
    exited and its output was decoded as text), process_update returns
    normally whatever the exit code: it has stored the path and the time
    as debounce state, and after the File line it has printed the exit
    code, then the captured output when there is some, then the captured
    error text when there is some.  These lines go to standard output even
    for a handler that logs to a text box; only the File line goes to the
    text box. *)
Theorem process_update_reports_exit :
  forall (time_time : nat -> Q)
         (subprocess_run : string -> string -> result CompletedProcess)
         (h : ChangeHandler) (P : string) (a : Action) (w : World)
         (completed : CompletedProcess),
    subprocess_run (script h) P = Ok completed ->
    (last_file h <> Some P ->
     process_update time_time subprocess_run P (VAction a) (h, w)
     = (Ok tt,
        (triggered P (time_time (reads w)) h,
         mkWorld (S (reads w))
           (trace w ++ file_line h P a :: EvRun (script h) P :: report completed))))
    /\ (last_file h = Some P ->
        (1 <= time_time (reads w) - last_update h)%Q ->
        process_update time_time subprocess_run P (VAction a) (h, w)
        = (Ok tt,
           (triggered P (time_time (S (reads w))) h,
            mkWorld (S (S (reads w)))
              (trace w ++ file_line h P a :: EvRun (script h) P
                 :: report completed)))).
Proof.
  intros time_time subprocess_run h P a w completed Hrun. split.
  - intros Hne.
    assert (Hnot : is_last_file P h = false).
    { destruct (is_last_file P h) eqn:E; auto.
      apply is_last_file_true_iff in E. contradiction. }
    rewrite (process_update_lets_through time_time subprocess_run h P a w 0
               (or_introl (conj Hnot eq_refl))).
    now rewrite Hrun.
  - intros Hlast Hle. apply is_last_file_true_iff in Hlast.
    rewrite (process_update_lets_through time_time subprocess_run h P a w 1
               (or_intror (conj Hlast (conj eq_refl Hle)))).
    now rewrite Hrun.
Qed.

Lemma process_update_reports_exit_witness :
  process_update (clock_of [8%Q])
    (fun _ _ => Ok (mkCompletedProcess 2 "" "no such file"))
    "a.pdf" (VAction CREATE)
    (mkChangeHandler [VAction CREATE] (Some 1%nat) None 0 "scriptA", world0)
  = (Ok tt,
     (mkChangeHandler [VAction CREATE] (Some 1%nat) (Some "a.pdf") 8 "scriptA",
      mkWorld 1
        [EvTextbox 1 ("File CREATE: a.pdf" ++ String "010" "");
         EvRun "scriptA" "a.pdf";
         EvPrint "finished with code 2";
         EvPrint ("error: " ++ String "010" "no such file")])).
Proof.
  apply (proj1 (process_update_reports_exit (clock_of [8%Q])
                  (fun _ _ => Ok (mkCompletedProcess 2 "" "no such file"))
                  (mkChangeHandler [VAction CREATE] (Some 1%nat) None 0 "scriptA")
                  "a.pdf" CREATE world0 (mkCompletedProcess 2 "" "no such file")
                  eq_refl)).
  discriminate.
Defined.

(** ** Start-up *)

Lemma read_actions_raises names actions e :
  read_actions names actions = Raise e -> e = KeyError.
Proof.
  revert actions. induction names as [|n names IH]; simpl; intros actions;
    [discriminate|].
  destruct (Action_of_name n) as [a|e'] eqn:E; [apply IH|].
  intros [= <-]. revert E. unfold Action_of_name.
  repeat match goal with
         | |- context [String.eqb ?x ?y] => destruct (String.eqb x y)
         end; congruence.
Qed.

Lemma read_handlers_loop_quiet time_time configuration tb hs w r w' :
  read_handlers_loop time_time configuration tb hs w = (r, w') ->
  trace w' = trace w /\ forall e, r = Raise e -> e = KeyError.
Proof.
  revert hs w. induction configuration as [|hd configuration IH]; intros hs w.
  - simpl. unfold ret. intros [= <- <-]. split; [auto | discriminate].
  - simpl. run_monad. unfold ChangeHandler_init. run_monad.
    destruct (read_actions (hd_actions hd) []) as [acts|e] eqn:Eacts; simpl.
    + intros Hrun. apply IH in Hrun. exact Hrun.
    + intros [= <- <-]. split; auto. intros e' [= <-].
      eapply read_actions_raises; eauto.
Qed.

(** X19: start-up either starts one polling thread or starts nothing.
    When the main block returns from observer.start(), the observer holds
    the registry that read_handlers has built from the configuration (one
    clock reading per handler definition, the patterns of the
    configuration), the given path and recursion setting, and as baseline
    the snapshot that its constructor has captured; the running flag is
    set and exactly one thread has been started.  Otherwise the exception
    of read_handlers, or with the handlers loaded the exception of the
    capture, leaves the block with nothing printed and no thread
    started. *)
Theorem main_start_outcome :
  forall (time_time : nat -> Q) (configuration : option (list handler_data))
         (path : string) (recursive : bool) (root : option node)
         (w w' : World) (r : result Observer),
    main_start time_time configuration path recursive root w = (r, w') ->
    match r with
    | Ok observer =>
        exists cfg snapshot,
          configuration = Some cfg
          /\ read_handlers time_time (Some cfg) None w
             = (Ok (handlers observer),
                mkWorld (List.length cfg + reads w) (trace w))
          /\ (forall p, In p (Dict.keys (handlers observer))
                        <-> In p (map hd_pattern cfg))
          /\ capture recursive root = Ok snapshot
          /\ observer
             = mkObserver path recursive snapshot true
                 (Some (List.length (started_threads w))) (handlers observer) None
          /\ w' = mkWorld (List.length cfg + reads w)
                    (trace w ++ [EvThreadStart (List.length (started_threads w))])
    | Raise e =>
        trace w' = trace w
        /\ ((exists w1, read_handlers time_time configuration None w = (Raise e, w1))
            \/ (exists hs w1,
                   read_handlers time_time configuration None w = (Ok hs, w1)
                   /\ capture recursive root = Raise e))
    end.
Proof.
  intros time_time configuration path recursive root w w' r.
  unfold main_start. unfold bind at 1.
  destruct (read_handlers time_time configuration None w) as [[hs|e] w1] eqn:Eread.
  - destruct configuration as [cfg|]; [|discriminate].
    assert (Hloaded : w1 = mkWorld (List.length cfg + reads w) (trace w)
                      /\ forall p, In p (Dict.keys hs) <-> In p (map hd_pattern cfg)).
    { simpl in Eread.
      assert (Hknown : forall hd name, In hd cfg -> In name (hd_actions hd) ->
                                       In name Action_names).
      { intros hd name Hhd Hname.
        destruct (in_dec string_dec name Action_names) as [Hin|Hout]; auto.
        destruct (read_handlers_loop_unknown time_time cfg None [] w hd name
                    Hhd Hname Hout) as [w2 [Hraise _]].
        congruence. }
      destruct (read_handlers_loop_known time_time cfg None [] w Hknown)
        as [hs' [Hrun Hkeys]].
      rewrite Hrun in Eread. injection Eread as <- <-. split; auto.
      intros p. rewrite Hkeys. simpl. tauto. }
    destruct Hloaded as [-> Hkeys].
    unfold bind, of_result, Observer_init.
    destruct (capture recursive root) as [snapshot|e] eqn:Ecap.
    + unfold start. run_monad. intros [= <- <-]. simpl.
      exists cfg, snapshot. repeat split; auto; apply Hkeys.
    + intros [= <- <-]. split; auto. right. eauto.
  - intros [= <- <-]. split; [|left; eauto].
    destruct configuration as [cfg|]; simpl in Eread.
    + apply read_handlers_loop_quiet in Eread. tauto.
    + now injection Eread as <- <-.
Qed.

Lemma main_start_outcome_witness :
  exists cfg snapshot,
    Some routing_config = Some cfg
    /\ read_handlers (clock_of []) (Some cfg) None world0
       = (Ok (handlers (mkObserver "." false [("a.txt", 3)] true (Some 0%nat)
                          routing_handlers None)),
          mkWorld (List.length cfg + reads world0) (trace world0))
    /\ (forall p, In p (Dict.keys (handlers (mkObserver "." false [("a.txt", 3)] true
                                              (Some 0%nat) routing_handlers None)))
                  <-> In p (map hd_pattern cfg))
    /\ capture false tree_a3 = Ok snapshot
    /\ mkObserver "." false [("a.txt", 3)] true (Some 0%nat) routing_handlers None
       = mkObserver "." false snapshot true
           (Some (List.length (started_threads world0)))
           (handlers (mkObserver "." false [("a.txt", 3)] true (Some 0%nat)
                        routing_handlers None)) None
    /\ mkWorld 2 [EvThreadStart 0]
       = mkWorld (List.length cfg + reads world0)
           (trace world0 ++ [EvThreadStart (List.length (started_threads world0))]).
Proof.
  apply (main_start_outcome (clock_of []) (Some routing_config) "." false tree_a3
           world0 (mkWorld 2 [EvThreadStart 0])
           (Ok (mkObserver "." false [("a.txt", 3)] true (Some 0%nat)
                  routing_handlers None))).
  reflexivity.
Defined.
